(** * The prompt index of prompts-mcp-server

    A shallow embedding of the name resolver ([findPromptFile], [readPrompt]),
    the directory scanner ([findMarkdownFiles]), the record loader
    ([loadPromptMetadata]) and the index cache ([updateCacheForFile],
    [removeFromCache], [initializeCache]), with the properties of the
    specification stated over that embedding.

    Conventions of the model.
    - A JavaScript string is a [string]; one [ascii] stands for one UTF-16 code
      unit in the range 0..255.
    - Paths are POSIX paths ([path.sep] is "/").
    - A rejected promise or a thrown exception is the [Throw] outcome;
      [try]/[catch] is [try_catch].
    - The [Map] of the cache is a [gmap]; the order of its entries is not
      observed by any statement below. *)

From Stdlib Require Import Ascii String.
From stdpp Require Import base option list strings gmap.

Local Open Scope string_scope.
Local Open Scope list_scope.

(** ** Strings, as far as the program uses them *)

Definition slash : ascii := "/"%char.
Definition underscore : ascii := "_"%char.
Definition newline : ascii := "010"%char.
Definition space : ascii := " "%char.
Definition dquote : string := String "034"%char "".

(** [s.map(f)] over the code units of [s]. *)
Fixpoint map_chars (f : ascii -> ascii) (s : string) : string :=
  match s with
  | EmptyString => EmptyString
  | String c s' => String (f c) (map_chars f s')
  end.

(** [s.startsWith(p)] *)
Fixpoint startsWith (s p : string) : bool :=
  match p with
  | EmptyString => true
  | String a p' =>
      match s with
      | EmptyString => false
      | String b s' => Ascii.eqb b a && startsWith s' p'
      end
  end.

(** [s.endsWith(suf)]: [s] is [suf], or the tail of [s] ends with [suf]. *)
Fixpoint endsWith (s suf : string) : bool :=
  String.eqb s suf ||
  match s with
  | EmptyString => false
  | String _ s' => endsWith s' suf
  end.

(** [s.replace(/\.md$/, '')]: the only place the pattern can match is the
    very end of the string. *)
Fixpoint stripMd (s : string) : string :=
  if String.eqb s ".md" then EmptyString
  else match s with
       | EmptyString => EmptyString
       | String c s' => String c (stripMd s')
       end.

(** [s.replace(/\//g, '_')] *)
Definition flattenSlashes (s : string) : string :=
  map_chars (fun c => if Ascii.eqb c slash then underscore else c) s.

(** [s.replace(/\n/g, ' ')] *)
Definition newlinesToSpaces (s : string) : string :=
  map_chars (fun c => if Ascii.eqb c newline then space else c) s.

Definition code (c : ascii) : N := N_of_ascii c.

Definition in_range (lo hi : N) (c : ascii) : bool :=
  (lo <=? code c)%N && (code c <=? hi)%N.

(** The class [[a-z0-9-_]] under the [i] flag. *)
Definition is_safe_char (c : ascii) : bool :=
  in_range 97 122 c || in_range 65 90 c || in_range 48 57 c
  || Ascii.eqb c "-"%char || Ascii.eqb c underscore.

(** [String.prototype.toLowerCase] on code units below 256. *)
Definition lower_char (c : ascii) : ascii :=
  if in_range 65 90 c || in_range 192 214 c || in_range 216 222 c
  then ascii_of_N (code c + 32) else c.

Definition toLowerCase (s : string) : string := map_chars lower_char s.

(** White space and line terminators removed by [String.prototype.trim],
    among the code units below 256. *)
Definition is_js_space (c : ascii) : bool :=
  in_range 9 13 c || Ascii.eqb c space || Ascii.eqb c "160"%char.

Fixpoint trimStart (s : string) : string :=
  match s with
  | EmptyString => EmptyString
  | String c s' => if is_js_space c then trimStart s' else s
  end.

(** Drops the white space at the end: a character is kept when it is not
    white space or when something is kept after it. *)
Fixpoint trimEnd (s : string) : string :=
  match s with
  | EmptyString => EmptyString
  | String c s' =>
      match trimEnd s' with
      | EmptyString => if is_js_space c then EmptyString else String c EmptyString
      | r => String c r
      end
  end.

Definition trim (s : string) : string := trimEnd (trimStart s).

(** [s.split('/')] *)
Fixpoint split_slash (s : string) : list string :=
  match s with
  | EmptyString => [EmptyString]
  | String c s' =>
      if Ascii.eqb c slash then EmptyString :: split_slash s'
      else match split_slash s' with
           | [] => [String c EmptyString]
           | x :: xs => String c x :: xs
           end
  end.

(** [parts.join(sep)] *)
Fixpoint join_with (sep : string) (parts : list string) : string :=
  match parts with
  | [] => EmptyString
  | [x] => x
  | x :: rest => x +:+ sep +:+ join_with sep rest
  end.

Fixpoint contains_char (c : ascii) (s : string) : bool :=
  match s with
  | EmptyString => false
  | String d s' => Ascii.eqb d c || contains_char c s'
  end.

(** ** The [path] module (POSIX flavour) *)

(** One step of path normalisation over a stack of segments kept in
    reverse: empty and "." segments vanish, ".." removes the last segment
    (and stays at the root when there is none). *)
Definition norm_step (stack : list string) (seg : string) : list string :=
  if String.eqb seg "" || String.eqb seg "." then stack
  else if String.eqb seg ".." then tail stack
  else seg :: stack.

(** The segments of an absolute path after [path.resolve]. *)
Definition segments (p : string) : list string :=
  rev (fold_left norm_step (split_slash p) []).

Fixpoint drop_common (from to : list string) : list string * list string :=
  match from, to with
  | x :: from', y :: to' =>
      if String.eqb x y then drop_common from' to' else (from, to)
  | _, _ => (from, to)
  end.

(** [path.isAbsolute(p)] *)
Definition path_isAbsolute (p : string) : bool := startsWith p "/".

(** [path.join(dir, name)]: the two parts separated by a slash.  Node also
    normalises the result; here normalisation happens where a path is
    resolved against the file system ([segments]). *)
Definition path_join (dir name : string) : string := dir +:+ "/" +:+ name.

(** [path.relative(from, to)] for absolute paths: one ".." for each segment
    of [from] below the common prefix, then the rest of [to]. *)
Definition path_relative (from to : string) : string :=
  let '(f, t) := drop_common (segments from) (segments to) in
  join_with "/" (map (fun _ => "..") f ++ t).

(** ** Outcomes of fallible code *)

Inductive outcome (A : Type) : Type :=
| Ok (a : A)
| Throw (message : string).
Arguments Ok {A} a.
Arguments Throw {A} message.

Definition is_ok {A} (o : outcome A) : bool :=
  match o with Ok _ => true | Throw _ => false end.

(** ** The document tree *)

(** A directory entry as [readdir(..., { withFileTypes: true })] reports it.
    - [File name content]: a regular file; [content = None] when reading it
      fails (permissions).
    - [Dir name listable children]: a directory; [listable = false] when
      [readdir] on it fails.
    - [Other name]: neither [isFile()] nor [isDirectory()], and not readable
      as a file (a socket, a dangling symbolic link).  Symbolic links to
      files and directories are not modelled. *)
#[warnings="-register-all"]
Inductive entry : Type :=
| File (name : string) (content : option string)
| Dir (name : string) (listable : bool) (children : list entry)
| Other (name : string).

Definition entry_name (e : entry) : string :=
  match e with
  | File n _ => n
  | Dir n _ _ => n
  | Other n => n
  end.

(** The prompts directory itself: absent (and then whether [mkdir] can
    create it), or present with its entries. *)
Inductive root_state : Type :=
| RootAbsent (creatable : bool)
| RootPresent (listable : bool) (entries : list entry).

Definition root_entries (r : root_state) : list entry :=
  match r with
  | RootAbsent _ => []
  | RootPresent _ es => es
  end.

Definition root_listable (r : root_state) : bool :=
  match r with
  | RootAbsent _ => false
  | RootPresent l _ => l
  end.

Definition root_present (r : root_state) : bool :=
  match r with
  | RootAbsent _ => false
  | RootPresent _ _ => true
  end.

Fixpoint find_entry (n : string) (es : list entry) : option entry :=
  match es with
  | [] => None
  | e :: es' => if String.eqb (entry_name e) n then Some e else find_entry n es'
  end.

(** The entry reached from a directory along the given segments. *)
Fixpoint node_at (segs : list string) (es : list entry) : option entry :=
  match segs with
  | [] => None
  | [n] => find_entry n es
  | n :: segs' =>
      match find_entry n es with
      | Some (Dir _ _ children) => node_at segs' children
      | _ => None
      end
  end.

(** A name that [readdir] can report: not empty, no slash, neither "." nor
    "..". *)
Definition plain_name (n : string) : bool :=
  negb (String.eqb n "") && negb (contains_char slash n)
  && negb (String.eqb n ".") && negb (String.eqb n "..").

Fixpoint names_distinct (ns : list string) : bool :=
  match ns with
  | [] => true
  | n :: ns' => negb (existsb (String.eqb n) ns') && names_distinct ns'
  end.

(** Well-formed trees: plain names, distinct within a directory. *)
Fixpoint wf_entry (e : entry) : bool :=
  plain_name (entry_name e) &&
  match e with
  | Dir _ _ children =>
      forallb wf_entry children && names_distinct (map entry_name children)
  | _ => true
  end.

Definition wf_entries (es : list entry) : bool :=
  forallb wf_entry es && names_distinct (map entry_name es).

Definition wf_root (r : root_state) : bool := wf_entries (root_entries r).

(** ** Prompt records *)

(** Modelled from the spec: the declaration of [PromptMetadata] (types.ts) is
    not part of the sources at hand; the specification calls it an open
    mapping of string keys to values (title, description, category, ...).
    Values are kept as their text. *)
Definition PromptMetadata : Type := gmap string string.

(** What [matter(content)] returns: the attributes of the header and the
    body that follows it. *)
Record GrayMatterFile : Type := mkGrayMatterFile {
  data : PromptMetadata;
  content : string
}.

Record PromptInfo : Type := mkPromptInfo {
  name : string;
  metadata : PromptMetadata;
  preview : string
}.

(** ** A state and exception monad for the methods of [PromptCache] *)

Record State : Type := mkState {
  fs : root_state;
  cache : gmap string PromptInfo
}.

Definition M (A : Type) : Type := State -> outcome A * State.

Definition ret {A} (a : A) : M A := fun s => (Ok a, s).

Definition bind {A B} (m : M A) (k : A -> M B) : M B :=
  fun s =>
    match m s with
    | (Ok a, s') => k a s'
    | (Throw e, s') => (Throw e, s')
    end.

Definition try_catch {A} (body : M A) (handler : string -> M A) : M A :=
  fun s =>
    match body s with
    | (Ok a, s') => (Ok a, s')
    | (Throw e, s') => handler e s'
    end.

Definition lift {A} (o : outcome A) : M A := fun s => (o, s).

Definition with_fs {A} (f : root_state -> A) : M A := fun s => (Ok (f (fs s)), s).

Definition modify_cache (f : gmap string PromptInfo -> gmap string PromptInfo) : M unit :=
  fun s => (Ok tt, {| fs := fs s; cache := f (cache s) |}).

Notation "'let*' x ':=' m 'in' k" := (bind m (fun x => k))
  (at level 10, x name, m at level 100, k at level 200).
Notation "m ';;;' k" := (bind m (fun _ => k))
  (at level 100, k at level 200, right associativity).

(** [await Promise.all(tasks)]: every task runs to its end, whether or not
    another one was rejected; the result is rejected with the first
    rejection. *)
Fixpoint promiseAll (tasks : list (M unit)) : M unit :=
  match tasks with
  | [] => ret tt
  | t :: rest =>
      fun s =>
        match t s with
        | (Ok _, s') => promiseAll rest s'
        | (Throw e, s') => (Throw e, snd (promiseAll rest s'))
        end
  end.

(** The order in which reads issued together complete.  The reads of
    [initializeCache] are issued in scan order and each record is inserted
    when its own read completes; [sched] gives, for each read in issue order,
    how many of the reads issued after it complete before it (capped at
    their number).  The empty schedule is completion in issue order. *)
Definition insert_at {A} (k : nat) (x : A) (l : list A) : list A :=
  take k l ++ x :: drop k l.

Fixpoint completionOrder {A} (sched : list nat) (issued : list A) : list A :=
  match issued with
  | [] => []
  | x :: rest => insert_at (hd 0 sched) x (completionOrder (tl sched) rest)
  end.

Fixpoint find_map {A B} (f : A -> option B) (l : list A) : option B :=
  match l with
  | [] => None
  | x :: l' => match f x with Some y => Some y | None => find_map f l' end
  end.

Section Program.

(** [promptsDir]: the root directory, an absolute, normalised path.
    [matter]: the header parser (gray-matter), which may throw on a
    malformed header.  The file system outside [promptsDir] is not modelled:
    a path that leaves the root names nothing.  Looking an entry up by name
    ([fs_access], [fs_readFile]) does not need the directories on the way
    to be listable. *)
Context (promptsDir : string) (matter : string -> outcome GrayMatterFile).

(** ** File system primitives *)

(** The segments of [p] below the root, when [p] is inside it. *)
Definition locate (p : string) : option (list string) :=
  match drop_common (segments promptsDir) (segments p) with
  | ([], t) => Some t
  | _ => None
  end.

(** [fs.access(p)] *)
Definition fs_access (r : root_state) (p : string) : outcome unit :=
  match locate p with
  | Some [] => if root_present r then Ok tt else Throw "ENOENT"
  | Some segs =>
      match node_at segs (root_entries r) with
      | Some _ => Ok tt
      | None => Throw "ENOENT"
      end
  | None => Throw "ENOENT"
  end.

(** [fs.readFile(p, 'utf-8')] *)
Definition fs_readFile (r : root_state) (p : string) : outcome string :=
  match locate p with
  | Some segs =>
      match node_at segs (root_entries r) with
      | Some (File _ (Some text)) => Ok text
      | Some (File _ None) => Throw "EACCES"
      | Some (Dir _ _ _) => Throw "EISDIR"
      | Some (Other _) => Throw "ENXIO"
      | None => Throw "ENOENT"
      end
  | None => Throw "ENOENT"
  end.

(** [fs.mkdir(promptsDir, { recursive: true })] *)
Definition fs_mkdir_root : M unit :=
  fun s =>
    match fs s with
    | RootPresent _ _ => (Ok tt, s)
    | RootAbsent true => (Ok tt, {| fs := RootPresent true []; cache := cache s |})
    | RootAbsent false => (Throw "EACCES", s)
    end.

(** ** PromptCache: reads *)

Definition getAllPrompts (s : State) : list PromptInfo :=
  snd <$> map_to_list (cache s).

Definition getPrompt (s : State) (n : string) : option PromptInfo :=
  cache s !! n.

Definition isEmpty (s : State) : bool := bool_decide (size (cache s) = 0).

(** ** The directory scanner *)

(** The body of the loop of [findMarkdownFiles] for one entry of [dir]. *)
Fixpoint scanEntry (baseDir dir : string) (e : entry) : list string :=
  let fullPath := path_join dir (entry_name e) in
  let relativePath := path_relative baseDir fullPath in
  if startsWith (entry_name e) "." then []
  else match e with
       | Dir _ listable children =>
           if listable then flat_map (scanEntry baseDir fullPath) children else []
       | File n _ => if endsWith n ".md" then [relativePath] else []
       | Other _ => []
       end.

(** [findMarkdownFiles(dir, baseDir)], given what [readdir(dir)] does:
    [listable = false] is the swallowed failure. *)
Definition findMarkdownFiles_in (listable : bool) (entries : list entry)
    (dir baseDir : string) : list string :=
  if listable then flat_map (scanEntry baseDir dir) entries else [].

(** [findMarkdownFiles(this.promptsDir)] *)
Definition findMarkdownFiles (r : root_state) : list string :=
  findMarkdownFiles_in (root_listable r) (root_entries r) promptsDir promptsDir.

(** ** The record loader *)

Definition canonicalName (fileName : string) : string :=
  flattenSlashes (stripMd fileName).

Definition makePreview (body : string) : string :=
  trim (newlinesToSpaces (substring 0 100 body)) +:+ "...".

Definition loadPromptMetadata (fileName : string) : M (option PromptInfo) :=
  let filePath := path_join promptsDir fileName in
  try_catch
    (let* text := (fun s => (fs_readFile (fs s) filePath, s)) in
     let* parsed := lift (matter text) in
     let name := canonicalName fileName in
     ret (Some {| name := name;
                  metadata := data parsed;
                  preview := makePreview (content parsed) |}))
    (fun _ => ret None).

(** ** PromptCache: mutations *)

Definition toRelative (filePath : string) : string :=
  if path_isAbsolute filePath then path_relative promptsDir filePath
  else filePath.

Definition updateCacheForFile (filePath : string) : M unit :=
  if negb (endsWith filePath ".md") then ret tt
  else
    let relativePath := toRelative filePath in
    let* loaded := loadPromptMetadata relativePath in
    match loaded with
    | Some info => modify_cache (fun c => <[name info := info]> c)
    | None => ret tt
    end.

Definition removeFromCache (filePath : string) : M unit :=
  if negb (endsWith filePath ".md") then ret tt
  else
    let relativePath := toRelative filePath in
    let name := canonicalName relativePath in
    modify_cache (fun c => delete name c).

Definition ensurePromptsDir : M unit :=
  try_catch (fun s => (fs_access (fs s) promptsDir, s)) (fun _ => fs_mkdir_root).

Definition initializeCache (sched : list nat) : M unit :=
  ensurePromptsDir ;;;
  try_catch
    (let* mdFiles := with_fs findMarkdownFiles in
     modify_cache (fun _ => ∅) ;;;
     promiseAll (map updateCacheForFile (completionOrder sched mdFiles)))
    (fun _ => ret tt).

(** ** The name resolver and the single-record read *)

Definition sanitizeFileName (n : string) : string :=
  toLowerCase
    (map_chars (fun c => if is_safe_char c then c else underscore) n).

(** The body of the loop of [searchDir] for one entry of [dir]; [None] is
    "go on with the next entry". *)
Fixpoint searchEntry (requested sanitizedName baseDir dir : string) (e : entry)
    : option string :=
  let fullPath := path_join dir (entry_name e) in
  if startsWith (entry_name e) "." then None
  else match e with
       | Dir _ listable children =>
           if listable
           then find_map (searchEntry requested sanitizedName baseDir fullPath) children
           else None
       | File n _ =>
           if endsWith n ".md" then
             let relativePath := path_relative baseDir fullPath in
             let pathWithoutExt := stripMd relativePath in
             if String.eqb pathWithoutExt requested then Some fullPath
             else if String.eqb (sanitizeFileName pathWithoutExt) sanitizedName
                  then Some fullPath
                  else None
           else None
       | Other _ => None
       end.

Definition searchDir (requested sanitizedName : string) (r : root_state)
    : option string :=
  if root_listable r
  then find_map (searchEntry requested sanitizedName promptsDir promptsDir)
         (root_entries r)
  else None.

Definition findPromptFile (r : root_state) (requested : string) : option string :=
  let sanitizedName := sanitizeFileName requested in
  let targetFileName := sanitizedName +:+ ".md" in
  let directPath := path_join promptsDir targetFileName in
  match fs_access r directPath with
  | Ok _ => Some directPath
  | Throw _ => searchDir requested sanitizedName r
  end.

Definition notFound (requested : string) : string :=
  "Prompt " +:+ dquote +:+ requested +:+ dquote +:+ " not found".

Definition readPrompt (r : root_state) (requested : string) : outcome string :=
  match findPromptFile r requested with
  | None => Throw (notFound requested)
  | Some filePath =>
      match fs_readFile r filePath with
      | Ok text => Ok text
      | Throw _ => Throw (notFound requested)
      end
  end.

End Program.

(** ** The resolver of src/fileOperations.ts

    This variant of the facade has no [sanitizeFileName]: it walks the tree
    and compares the extension-stripped relative path with the requested
    name, nothing else. *)
Module ExactResolver.
Section Program.
Context (promptsDir : string).

Fixpoint searchEntry (requested baseDir dir : string) (e : entry) : option string :=
  let fullPath := path_join dir (entry_name e) in
  if startsWith (entry_name e) "." then None
  else match e with
       | Dir _ listable children =>
           if listable
           then find_map (searchEntry requested baseDir fullPath) children
           else None
       | File n _ =>
           if endsWith n ".md" then
             let relativePath := path_relative baseDir fullPath in
             let pathWithoutExt := stripMd relativePath in
             if String.eqb pathWithoutExt requested then Some fullPath else None
           else None
       | Other _ => None
       end.

Definition findPromptFile (r : root_state) (requested : string) : option string :=
  if root_listable r
  then find_map (searchEntry requested promptsDir promptsDir) (root_entries r)
  else None.

Definition readPrompt (r : root_state) (requested : string) : outcome string :=
  match findPromptFile r requested with
  | None => Throw (notFound requested)
  | Some filePath =>
      match fs_readFile promptsDir r filePath with
      | Ok text => Ok text
      | Throw _ => Throw (notFound requested)
      end
  end.

End Program.
End ExactResolver.

(** ** Writing and removing files *)

(** [es] with the regular file [n] holding [text]: an existing readable file
    is replaced in place, a missing one is added after the others.  A file
    that cannot be read is taken to deny writing as well; directories and
    other entries cannot be written as files.  What a write depends on
    beyond the entries of the tree (the permissions of the directory, the
    length of the name, the space left) is not recorded in a tree: a write
    that the system refuses for such a reason returns here, so the
    properties of writes are stated for writes that return. *)
Fixpoint put_file (n text : string) (es : list entry) : outcome (list entry) :=
  match es with
  | [] => Ok [File n (Some text)]
  | e :: es' =>
      if String.eqb (entry_name e) n then
        match e with
        | File _ (Some _) => Ok (File n (Some text) :: es')
        | File _ None => Throw "EACCES"
        | Dir _ _ _ => Throw "EISDIR"
        | Other _ => Throw "ENXIO"
        end
      else match put_file n text es' with
           | Ok es'' => Ok (e :: es'')
           | Throw m => Throw m
           end
  end.

(** [es] without the entry [n]; directories are not unlinked. *)
Fixpoint drop_file (n : string) (es : list entry) : outcome (list entry) :=
  match es with
  | [] => Throw "ENOENT"
  | e :: es' =>
      if String.eqb (entry_name e) n then
        match e with
        | Dir _ _ _ => Throw "EISDIR"
        | _ => Ok es'
        end
      else match drop_file n es' with
           | Ok es'' => Ok (e :: es'')
           | Throw m => Throw m
           end
  end.

(** A change of the directory reached along [segs], the last segment being
    the name handed to [change]. *)
Fixpoint change_at (change : string -> list entry -> outcome (list entry))
    (segs : list string) (es : list entry) : outcome (list entry) :=
  match segs with
  | [] => Throw "EISDIR"
  | [n] => change n es
  | n :: below =>
      (fix descend (es : list entry) : outcome (list entry) :=
         match es with
         | [] => Throw "ENOENT"
         | e :: es' =>
             if String.eqb (entry_name e) n then
               match e with
               | Dir d l children =>
                   match change_at change below children with
                   | Ok children' => Ok (Dir d l children' :: es')
                   | Throw m => Throw m
                   end
               | _ => Throw "ENOTDIR"
               end
             else match descend es' with
                  | Ok es'' => Ok (e :: es'')
                  | Throw m => Throw m
                  end
         end) es
  end.

(** ** The protocol side (prompts.ts): what a client is sent *)

(** The [Prompt] of the protocol, as [promptInfoToMCPPrompt] fills it. *)
Record Prompt : Type := mkPrompt {
  prompt_name : string;
  prompt_title : string;
  prompt_description : string
}.

(** A user message with a text content. *)
Record PromptMessage : Type := mkPromptMessage {
  role : string;
  text : string
}.

Record GetPromptResult : Type := mkGetPromptResult {
  description : option string;
  messages : list PromptMessage
}.

(** [a || b] on an attribute that may be missing: the attribute when it is
    present and not the empty string. *)
Definition orElse (a : option string) (b : string) : string :=
  match a with
  | Some v => if String.eqb v "" then b else v
  | None => b
  end.

Definition promptInfoToMCPPrompt (promptInfo : PromptInfo) : Prompt :=
  {| prompt_name := name promptInfo;
     prompt_title := orElse (metadata promptInfo !! "title") (name promptInfo);
     prompt_description :=
       orElse (metadata promptInfo !! "description") (preview promptInfo) |}.

(** ** File watcher events *)

(** What chokidar delivers to the handlers [initializeFileWatcher]
    registers. *)
Inductive watchEvent : Type :=
| EvAdd (filePath : string)
| EvChange (filePath : string)
| EvUnlink (filePath : string)
| EvError (message : string).

(** The cache together with the two watcher fields of [PromptCache]. *)
Record Server : Type := mkServer {
  core : State;
  watcher : bool;
  isWatcherInitialized : bool
}.

(** [initializeFileWatcher()]: the handlers themselves are [deliver]. *)
Definition initializeFileWatcher (sv : Server) : Server :=
  if isWatcherInitialized sv then sv
  else {| core := core sv; watcher := true; isWatcherInitialized := true |}.

(** [cleanup()] *)
Definition cleanup (sv : Server) : Server :=
  if watcher sv
  then {| core := core sv; watcher := false; isWatcherInitialized := false |}
  else sv.

(** [size()] *)
Definition cacheSize (s : State) : nat := size (cache s).

Section Facade.
Context (promptsDir : string) (matter : string -> outcome GrayMatterFile).

(** [fs.writeFile(p, text, 'utf-8')] *)
Definition fs_writeFile (p text : string) : M unit :=
  fun s =>
    match locate promptsDir p, fs s with
    | Some segs, RootPresent l es =>
        match change_at (fun n => put_file n text) segs es with
        | Ok es' => (Ok tt, {| fs := RootPresent l es'; cache := cache s |})
        | Throw m => (Throw m, s)
        end
    | _, _ => (Throw "ENOENT", s)
    end.

(** [fs.unlink(p)] *)
Definition fs_unlink (p : string) : M unit :=
  fun s =>
    match locate promptsDir p, fs s with
    | Some segs, RootPresent l es =>
        match change_at drop_file segs es with
        | Ok es' => (Ok tt, {| fs := RootPresent l es'; cache := cache s |})
        | Throw m => (Throw m, s)
        end
    | _, _ => (Throw "ENOENT", s)
    end.

(** [savePrompt(name, content)] *)
Definition savePrompt (requested text : string) : M string :=
  ensurePromptsDir promptsDir ;;;
  let fileName := sanitizeFileName requested +:+ ".md" in
  let filePath := path_join promptsDir fileName in
  fs_writeFile filePath text ;;;
  ret fileName.

(** [savePromptWithFilename(filename, content)] *)
Definition savePromptWithFilename (filename text : string) : M string :=
  ensurePromptsDir promptsDir ;;;
  let sanitizedFileName := sanitizeFileName filename +:+ ".md" in
  let filePath := path_join promptsDir sanitizedFileName in
  fs_writeFile filePath text ;;;
  ret sanitizedFileName.

(** [deletePrompt(name)] *)
Definition deletePrompt (requested : string) : M bool :=
  let fileName := sanitizeFileName requested +:+ ".md" in
  let filePath := path_join promptsDir fileName in
  try_catch (fs_unlink filePath ;;; ret true)
            (fun _ => lift (Throw (notFound requested))).

(** [promptExists(name)] *)
Definition promptExists (requested : string) : M bool :=
  let fileName := sanitizeFileName requested +:+ ".md" in
  let filePath := path_join promptsDir fileName in
  try_catch ((fun s => (fs_access promptsDir (fs s) filePath, s)) ;;; ret true)
            (fun _ => ret false).

(** [getPromptInfo(name)] *)
Definition getPromptInfo (s : State) (requested : string) : option PromptInfo :=
  getPrompt s requested.

(** The handlers of the watcher. *)
Definition deliver (ev : watchEvent) : M unit :=
  match ev with
  | EvAdd filePath => updateCacheForFile promptsDir matter filePath
  | EvChange filePath => updateCacheForFile promptsDir matter filePath
  | EvUnlink filePath => removeFromCache promptsDir filePath
  | EvError _ => ret tt
  end.

(** [listPrompts()]; [sched] is the completion order of the reads of the
    bulk load it may run. *)
Definition listPrompts (sched : list nat) (sv : Server)
    : outcome (list PromptInfo) * Server :=
  if isEmpty (core sv) then
    match initializeCache promptsDir matter sched (core sv) with
    | (Ok _, s') =>
        let sv' := initializeFileWatcher
                     {| core := s'; watcher := watcher sv;
                        isWatcherInitialized := isWatcherInitialized sv |} in
        (Ok (getAllPrompts (core sv')), sv')
    | (Throw e, s') =>
        (Throw e, {| core := s'; watcher := watcher sv;
                     isWatcherInitialized := isWatcherInitialized sv |})
    end
  else (Ok (getAllPrompts (core sv)), sv).

(** [handleListPrompts()] *)
Definition handleListPrompts (sched : list nat) (sv : Server)
    : outcome (list Prompt) * Server :=
  match listPrompts sched sv with
  | (Ok prompts, sv') => (Ok (map promptInfoToMCPPrompt prompts), sv')
  | (Throw e, sv') => (Throw e, sv')
  end.

(** [regexReplace source input value] stands for
    [input.replace(new RegExp(source, 'g'), value)], which throws when
    [source] is not a regular expression. *)
Context (regexReplace : string -> string -> string -> outcome string).

(** The loop over [Object.entries(args)] of [handleGetPrompt]. *)
Fixpoint substituteArgs (args : list (string * string)) (promptText : string)
    : outcome string :=
  match args with
  | [] => Ok promptText
  | (key, value) :: rest =>
      match regexReplace ("\{\{" +:+ key +:+ "\}\}") promptText value with
      | Ok once =>
          match regexReplace ("\{" +:+ key +:+ "\}") once value with
          | Ok twice => substituteArgs rest twice
          | Throw m => Throw m
          end
      | Throw m => Throw m
      end
  end.

Definition getPromptError (requested cause : string) : string :=
  "Prompt " +:+ dquote +:+ requested +:+ dquote +:+ " not found: " +:+ cause.

(** [handleGetPrompt(name, args)]; [args = None] is a call without
    arguments. *)
Definition handleGetPrompt (s : State) (requested : string)
    (args : option (list (string * string))) : outcome GetPromptResult :=
  let attempt :=
    match readPrompt promptsDir (fs s) requested with
    | Throw m => Throw m
    | Ok fileText =>
        match matter fileText with
        | Throw m => Throw m
        | Ok parsed =>
            let promptInfo := getPromptInfo s requested in
            match match args with
                  | Some entries => substituteArgs entries (content parsed)
                  | None => Ok (content parsed)
                  end with
            | Throw m => Throw m
            | Ok promptText =>
                Ok {| description :=
                        match promptInfo with
                        | Some info => metadata info !! "description"
                        | None => None
                        end;
                      messages := [ {| role := "user"; text := promptText |} ] |}
            end
        end
    end in
  match attempt with
  | Ok result => Ok result
  | Throw m => Throw (getPromptError requested m)
  end.

End Facade.

(** ** Notions used to state the properties *)

(** The directory reached from [base] through nested [path.join]s. *)
Definition dirOf (base : string) (rel : list string) : string :=
  fold_left path_join rel base.

Definition sanitize_char (c : ascii) : ascii :=
  lower_char (if is_safe_char c then c else underscore).

(** The segment lists of the documents the walk reaches below an entry, in
    the order of the walk; [rel] are the segments of the directory the entry
    is in. *)
Fixpoint visibleFiles (rel : list string) (e : entry) : list (list string) :=
  if startsWith (entry_name e) "." then []
  else match e with
       | Dir n listable children =>
           if listable then flat_map (visibleFiles (rel ++ [n])) children else []
       | File n _ => if endsWith n ".md" then [rel ++ [n]] else []
       | Other _ => []
       end.

(** The entry the walk reaches along the given segments: no segment is
    hidden and every directory on the way can be listed. *)
Fixpoint visibleAt (segs : list string) (es : list entry) : option entry :=
  match segs with
  | [] => None
  | n :: below =>
      if startsWith n "." then None
      else match find_entry n es, below with
           | Some e, [] => Some e
           | Some (Dir _ true children), _ => visibleAt below children
           | _, _ => None
           end
  end.

Definition rootVisible (r : root_state) : list (list string) :=
  if root_listable r then flat_map (visibleFiles []) (root_entries r) else [].


(** What [searchDir] does with one document of the walk. *)
Definition candidate (promptsDir requested sanitizedName relativePath : string)
    : option string :=
  let pathWithoutExt := stripMd relativePath in
  if String.eqb pathWithoutExt requested
  then Some (path_join promptsDir relativePath)
  else if String.eqb (sanitizeFileName pathWithoutExt) sanitizedName
       then Some (path_join promptsDir relativePath)
       else None.

(** What the walk of [ExactResolver] does with one document. *)
Definition exactCandidate (promptsDir requested relativePath : string) : option string :=
  if String.eqb (stripMd relativePath) requested
  then Some (path_join promptsDir relativePath)
  else None.

(** The record the loader builds from a tree, [None] when the read or the
    parse fails. *)
Definition loadResult (promptsDir : string) (matter : string -> outcome GrayMatterFile)
    (r : root_state) (fileName : string) : option PromptInfo :=
  match fs_readFile promptsDir r (path_join promptsDir fileName) with
  | Ok text =>
      match matter text with
      | Ok parsed =>
          Some {| name := canonicalName fileName;
                  metadata := data parsed;
                  preview := makePreview (content parsed) |}
      | Throw _ => None
      end
  | Throw _ => None
  end.

(** The effect of [updateCacheForFile] on the map. *)
Definition upsert (promptsDir : string) (matter : string -> outcome GrayMatterFile)
    (r : root_state) (filePath : string)
    (c : gmap string PromptInfo) : gmap string PromptInfo :=
  if endsWith filePath ".md" then
    match loadResult promptsDir matter r (toRelative promptsDir filePath) with
    | Some info => <[name info := info]> c
    | None => c
    end
  else c.

(** The map a bulk load builds from a tree. *)
Definition loadedIndex (promptsDir : string) (matter : string -> outcome GrayMatterFile)
    (r : root_state) (sched : list nat) : gmap string PromptInfo :=
  foldl (fun c p => upsert promptsDir matter r p c) ∅ (completionOrder sched (findMarkdownFiles promptsDir r)).

(** A file that [updateCacheForFile] turns into the record [info]. *)
Definition loadsTo (promptsDir : string) (matter : string -> outcome GrayMatterFile)
    (r : root_state) (p : string) (info : PromptInfo) : Prop :=
  endsWith p ".md" = true /\
  loadResult promptsDir matter r (toRelative promptsDir p) = Some info.

(** Every record of the map is stored under its own name. *)
Definition keyed (c : gmap string PromptInfo) : Prop :=
  map_Forall (fun k info => name info = k) c.

(** The preview, as the specification words it. *)
Fixpoint dropWhileSpace (l : list ascii) : list ascii :=
  match l with
  | [] => []
  | c :: l' => if is_js_space c then dropWhileSpace l' else l
  end.

(** The first 100 characters of the body, every newline turned into a
    space, white space removed at both ends, then the ellipsis. *)
Definition previewSpec (body : string) : string :=
  let first := take 100 (list_ascii_of_string body) in
  let oneLine := map (fun c => if Ascii.eqb c newline then space else c) first in
  let trimmed := rev (dropWhileSpace (rev (dropWhileSpace oneLine))) in
  string_of_list_ascii (trimmed ++ list_ascii_of_string "...").

(** ** Histories of the server *)

(** What can happen to a running server: an event of the watcher, a bulk
    load, a save or a delete through the facade. *)
Inductive operation : Type :=
| OpDeliver (ev : watchEvent)
| OpBulkLoad (sched : list nat)
| OpSave (requested text : string)
| OpDelete (requested : string).

Section Histories.
Context (promptsDir : string) (matter : string -> outcome GrayMatterFile).

(** The state an operation leaves, whether it returned or threw. *)
Definition perform (op : operation) (s : State) : State :=
  match op with
  | OpDeliver ev => snd (deliver promptsDir matter ev s)
  | OpBulkLoad sched => snd (initializeCache promptsDir matter sched s)
  | OpSave requested text => snd (savePrompt promptsDir requested text s)
  | OpDelete requested => snd (deletePrompt promptsDir requested s)
  end.

Definition history (ops : list operation) (s : State) : State :=
  foldl (fun s op => perform op s) s ops.

End Histories.

(** ** githubSync.ts: the repository named by a URL *)

Record RepoId : Type := mkRepoId {
  owner : string;
  repo : string;
  fullName : string
}.

Definition colon : ascii := ":"%char.

(** [s.replace(/\/$/, '')] *)
Fixpoint stripTrailingSlash (s : string) : string :=
  match s with
  | EmptyString => EmptyString
  | String c s' =>
      if Ascii.eqb c slash && String.eqb s' "" then EmptyString
      else String c (stripTrailingSlash s')
  end.

(** What is left of [s] after the prefix [p]. *)
Fixpoint after_prefix (p s : string) : option string :=
  match p with
  | EmptyString => Some s
  | String a p' =>
      match s with
      | EmptyString => None
      | String b s' => if Ascii.eqb b a then after_prefix p' s' else None
      end
  end.

(** [([^/]+)\/([^/]+)] at the start of [rest]: the two groups are the first
    two runs between slashes, both not empty. *)
Definition ownerRepo (rest : string) : option (string * string) :=
  match split_slash rest with
  | a :: b :: _ =>
      if negb (String.eqb a "") && negb (String.eqb b "") then Some (a, b) else None
  | _ => None
  end.

(** [github\.com[/:]([^/]+)\/([^/]+)] at the start of [s]. *)
Definition matchHere (s : string) : option (string * string) :=
  match after_prefix "github.com" s with
  | Some (String c rest) =>
      if Ascii.eqb c slash || Ascii.eqb c colon then ownerRepo rest else None
  | _ => None
  end.

(** [s.match(/github\.com[/:]([^/]+)\/([^/]+)/)]: the leftmost place where
    the pattern matches. *)
Fixpoint searchGithub (s : string) : option (string * string) :=
  match matchHere s with
  | Some groups => Some groups
  | None =>
      match s with
      | EmptyString => None
      | String _ s' => searchGithub s'
      end
  end.

(** [s.match(/^([^/]+)\/([^/]+)$/)] *)
Definition matchShort (s : string) : option (string * string) :=
  match split_slash s with
  | [a; b] =>
      if negb (String.eqb a "") && negb (String.eqb b "") then Some (a, b) else None
  | _ => None
  end.

Definition invalidRepoUrl (repoUrl : string) : string :=
  "Invalid GitHub repository URL format: " +:+ repoUrl.

(** [parseRepoUrl(repoUrl)] *)
Definition parseRepoUrl (repoUrl : string) : outcome RepoId :=
  let repoUrl := stripTrailingSlash (trim repoUrl) in
  match searchGithub repoUrl with
  | Some (o, r) => Ok {| owner := o; repo := r; fullName := o +:+ "/" +:+ r |}
  | None =>
      match matchShort repoUrl with
      | Some (o, r) => Ok {| owner := o; repo := r; fullName := repoUrl |}
      | None => Throw (invalidRepoUrl repoUrl)
      end
  end.

(** A name made of characters that are neither "/", ":" nor white space,
    and not empty. *)
Fixpoint nameChars (s : string) : bool :=
  match s with
  | EmptyString => true
  | String c s' =>
      negb (Ascii.eqb c slash) && negb (Ascii.eqb c colon) && negb (is_js_space c)
      && nameChars s'
  end.

Definition repoNameOk (s : string) : bool := negb (String.eqb s "") && nameChars s.

Fixpoint count_char (c : ascii) (s : string) : nat :=
  match s with
  | EmptyString => 0
  | String d s' => (if Ascii.eqb d c then 1 else 0) + count_char c s'
  end.

(** ** Notions for the facade and the index *)

(** The characters [sanitizeFileName] produces. *)
Definition is_file_char (c : ascii) : bool :=
  in_range 97 122 c || in_range 48 57 c || Ascii.eqb c "-"%char || Ascii.eqb c underscore.

Fixpoint all_chars (f : ascii -> bool) (s : string) : bool :=
  match s with
  | EmptyString => true
  | String c s' => f c && all_chars f s'
  end.

(** What every record the loader builds satisfies, whatever the file: it is
    stored under its own name, a name without "/", and its preview ends
    with the ellipsis. *)
Definition indexInvariant (c : gmap string PromptInfo) : Prop :=
  map_Forall (fun k info =>
                name info = k /\ contains_char slash k = false /\
                endsWith (preview info) "..." = true) c.

(** The index agrees with the tree: its entries are the records of the
    scanned files that load. *)
Definition inSync (promptsDir : string) (matter : string -> outcome GrayMatterFile)
    (s : State) : Prop :=
  forall n info,
    cache s !! n = Some info <->
    exists p, p ∈ findMarkdownFiles promptsDir (fs s) /\
              loadsTo promptsDir matter (fs s) p info /\ name info = n.

(** No two scanned files that load give different records of one name. *)
Definition collisionFree (promptsDir : string) (matter : string -> outcome GrayMatterFile)
    (r : root_state) : Prop :=
  forall p p' info info',
    p ∈ findMarkdownFiles promptsDir r -> p' ∈ findMarkdownFiles promptsDir r ->
    loadsTo promptsDir matter r p info -> loadsTo promptsDir matter r p' info' ->
    name info = name info' -> info = info'.

(** ** Example data *)

(** A stand-in for gray-matter on the example documents: a document without
    a header is all body, and a document that starts with "---!" stands for one
    whose header gray-matter rejects. *)
Definition demoMatter (text : string) : outcome GrayMatterFile :=
  if startsWith text "---!" then Throw "YAMLException"
  else Ok {| data := ∅; content := text |}.

Definition demoDir : string := "/srv/prompts".

(** The tree of the specification's examples: [team/review.md], the pair
    [a/b.md] and [a_b.md], a hidden directory, an unreadable file and a
    file with a bad header. *)
Definition demoEntries : list entry :=
  [ File "code-review.md" (Some "You are an experienced engineer.");
    Dir "team" true [ File "review.md" (Some "Review this.") ];
    Dir "a" true [ File "b.md" (Some "nested") ];
    File "a_b.md" (Some "flat");
    Dir ".hidden" true [ File "x.md" (Some "secret") ];
    File "locked.md" None;
    File "broken.md" (Some "---! : :");
    File "notes.txt" (Some "not a prompt") ].

Definition demoTree : root_state := RootPresent true demoEntries.

(** Two files of one directory whose names differ in case only. *)
Definition caseTree : root_state :=
  RootPresent true
    [ Dir "docs" true [ File "Readme.md" (Some "upper");
                        File "readme.md" (Some "lower") ] ].

Definition demoState : State := {| fs := demoTree; cache := ∅ |}.

Definition record (n body : string) : PromptInfo :=
  {| name := n; metadata := ∅; preview := body |}.

(** A tree in which no two documents flatten to one name, and the state a
    bulk load of it leaves. *)
Definition tidyEntries : list entry :=
  [ File "code-review.md" (Some "You are an experienced engineer.");
    Dir "team" true [ File "review.md" (Some "Review this.") ];
    File "notes.txt" (Some "not a prompt") ].

Definition tidyTree : root_state := RootPresent true tidyEntries.

Definition tidyState : State :=
  {| fs := tidyTree; cache := loadedIndex demoDir demoMatter tidyTree [] |}.

Definition tidyServer : Server :=
  {| core := tidyState; watcher := true; isWatcherInitialized := true |}.

(** A stand-in for the regular expression engine on bodies without
    placeholders. *)
Definition noPlaceholders (source input value : string) : outcome string := Ok input.

(** * Properties *)

(** ** Strings *)

Lemma sapp_cons (c : ascii) (s t : string) : String c s +:+ t = String c (s +:+ t).
Proof. reflexivity. Qed.

Lemma sapp_assoc (a b c : string) : (a +:+ b) +:+ c = a +:+ (b +:+ c).
Proof. induction a as [|x a IH]; [done|]. by rewrite !sapp_cons, IH. Qed.

Lemma slength_app (a b : string) :
  String.length (a +:+ b) = String.length a + String.length b.
Proof. induction a as [|x a IH]; [done|]. rewrite sapp_cons. simpl. by rewrite IH. Qed.

Lemma map_chars_app (f : ascii -> ascii) (a b : string) :
  map_chars f (a +:+ b) = map_chars f a +:+ map_chars f b.
Proof. induction a as [|x a IH]; [done|]. rewrite sapp_cons. simpl. by rewrite IH, sapp_cons. Qed.

Lemma contains_char_app (c : ascii) (a b : string) :
  contains_char c (a +:+ b) = contains_char c a || contains_char c b.
Proof.
  induction a as [|x a IH]; [done|].
  rewrite sapp_cons. simpl. by rewrite IH, orb_assoc.
Qed.

Lemma endsWith_unfold (s suf : string) :
  endsWith s suf =
  String.eqb s suf || match s with "" => false | String _ s' => endsWith s' suf end.
Proof. by destruct s. Qed.

Lemma endsWith_refl (s : string) : endsWith s s = true.
Proof. rewrite endsWith_unfold. by rewrite String.eqb_refl. Qed.

Lemma endsWith_app_r (a b suf : string) :
  endsWith b suf = true -> endsWith (a +:+ b) suf = true.
Proof.
  intros H. induction a as [|x a IH]; [done|].
  rewrite sapp_cons, endsWith_unfold, IH. apply orb_true_r.
Qed.

Lemma endsWith_app (p suf : string) : endsWith (p +:+ suf) suf = true.
Proof. apply endsWith_app_r, endsWith_refl. Qed.

Lemma endsWith_inv (s suf : string) :
  endsWith s suf = true -> exists p, s = p +:+ suf.
Proof.
  induction s as [|c s IH]; rewrite endsWith_unfold; intros H.
  - apply orb_true_iff in H as [H|H]; [|done].
    apply String.eqb_eq in H. subst. by exists "".
  - apply orb_true_iff in H as [H|H].
    + apply String.eqb_eq in H. subst. by exists "".
    + destruct (IH H) as [p ->]. by exists (String c p).
Qed.

Lemma stripMd_unfold (s : string) :
  stripMd s =
  if String.eqb s ".md" then ""
  else match s with "" => "" | String c s' => String c (stripMd s') end.
Proof. by destruct s. Qed.

(** Stripping the extension undoes appending it. *)
Lemma stripMd_app (p : string) : stripMd (p +:+ ".md") = p.
Proof.
  induction p as [|c p IH]; [done|].
  rewrite sapp_cons, stripMd_unfold, IH.
  destruct (String.eqb_spec (String c (p +:+ ".md")) ".md") as [E|_]; [|done].
  apply (f_equal String.length) in E. simpl in E. rewrite slength_app in E.
  simpl in E. lia.
Qed.

Lemma stripMd_of_md (p : string) :
  endsWith p ".md" = true -> stripMd p +:+ ".md" = p.
Proof. intros [q ->]%endsWith_inv. by rewrite stripMd_app. Qed.

Lemma flattenSlashes_plain (s : string) :
  contains_char slash s = false -> flattenSlashes s = s.
Proof.
  unfold flattenSlashes. induction s as [|c s IH]; [done|].
  simpl. intros [Hc Hs]%orb_false_iff. by rewrite Hc, IH.
Qed.

Lemma join_with_cons (sep x y : string) (rest : list string) :
  join_with sep (x :: y :: rest) = x +:+ sep +:+ join_with sep (y :: rest).
Proof. reflexivity. Qed.

Lemma join_with_snoc (sep : string) (segs : list string) (x : string) :
  segs <> [] ->
  join_with sep (segs ++ [x]) = join_with sep segs +:+ sep +:+ x.
Proof.
  induction segs as [|a segs IH]; [done|]. intros _.
  destruct segs as [|b segs]; [done|].
  change ((a :: b :: segs) ++ [x]) with (a :: b :: (segs ++ [x])).
  rewrite !join_with_cons. change (b :: segs ++ [x]) with ((b :: segs) ++ [x]).
  rewrite IH by done. by rewrite !sapp_assoc.
Qed.

(** The extension of the last segment is the extension of the path. *)
Lemma join_with_last_app (sep : string) (segs : list string) (x ext : string) :
  join_with sep (segs ++ [x +:+ ext]) = join_with sep (segs ++ [x]) +:+ ext.
Proof.
  destruct segs as [|a segs]; [done|].
  rewrite !join_with_snoc by done. by rewrite !sapp_assoc.
Qed.

Lemma flattenSlashes_join (segs : list string) :
  Forall (fun s => contains_char slash s = false) segs ->
  flattenSlashes (join_with "/" segs) = join_with "_" segs.
Proof.
  induction 1 as [|x segs Hx Hs IH]; [done|].
  destruct segs as [|y segs]; [by apply flattenSlashes_plain|].
  rewrite !join_with_cons. unfold flattenSlashes in *.
  rewrite !map_chars_app, IH. f_equal. by apply flattenSlashes_plain.
Qed.

Lemma split_slash_nonempty (s : string) : split_slash s <> [].
Proof.
  destruct s as [|c s]; [done|]. simpl.
  destruct (Ascii.eqb c slash); [done|]. by destruct (split_slash s).
Qed.

Lemma split_slash_app (a b : string) :
  split_slash (a +:+ "/" +:+ b) = split_slash a ++ split_slash b.
Proof.
  induction a as [|c a IH]; [done|].
  rewrite sapp_cons. simpl. rewrite IH.
  destruct (Ascii.eqb c slash); [done|].
  pose proof (split_slash_nonempty a). by destruct (split_slash a).
Qed.

Lemma split_slash_plain (s : string) :
  contains_char slash s = false -> split_slash s = [s].
Proof.
  induction s as [|c s IH]; [done|].
  simpl. intros [Hc Hs]%orb_false_iff. by rewrite Hc, IH.
Qed.

Lemma split_slash_join (segs : list string) :
  segs <> [] ->
  Forall (fun s => contains_char slash s = false) segs ->
  split_slash (join_with "/" segs) = segs.
Proof.
  intros Hne H. induction H as [|x segs Hx Hs IH]; [done|].
  destruct segs as [|y segs]; [by apply split_slash_plain|].
  rewrite join_with_cons, split_slash_app, IH by done.
  by rewrite split_slash_plain.
Qed.

(** ** Paths *)

Lemma plain_name_spec (n : string) :
  plain_name n = true ->
  n <> "" /\ contains_char slash n = false /\ n <> "." /\ n <> "..".
Proof.
  unfold plain_name. rewrite !andb_true_iff, !negb_true_iff.
  intros [[[H1 H2] H3] H4]. by rewrite !String.eqb_neq in *.
Qed.

Lemma plain_no_slash (segs : list string) :
  Forall (fun n => plain_name n = true) segs ->
  Forall (fun s => contains_char slash s = false) segs.
Proof.
  intros H. eapply Forall_impl; [exact H|].
  intros n Hn. by apply plain_name_spec in Hn as (_ & ? & _).
Qed.

Lemma norm_step_plain (stack : list string) (n : string) :
  plain_name n = true -> norm_step stack n = n :: stack.
Proof.
  intros (H1 & _ & H2 & H3)%plain_name_spec. unfold norm_step.
  apply String.eqb_neq in H1, H2, H3. by rewrite H1, H2, H3.
Qed.

Lemma fold_norm_plain (segs stack : list string) :
  Forall (fun n => plain_name n = true) segs ->
  fold_left norm_step segs stack = rev segs ++ stack.
Proof.
  intros H. revert stack. induction H as [|n segs Hn Hs IH]; intros stack; [done|].
  simpl. rewrite norm_step_plain, IH by done. by rewrite <- app_assoc.
Qed.

(** Below a directory, plain segments are kept as they are. *)
Lemma segments_under (base : string) (segs : list string) :
  segs <> [] ->
  Forall (fun n => plain_name n = true) segs ->
  segments (base +:+ "/" +:+ join_with "/" segs) = segments base ++ segs.
Proof.
  intros Hne Hp. unfold segments.
  rewrite split_slash_app, split_slash_join by auto using plain_no_slash.
  rewrite fold_left_app, fold_norm_plain by done.
  by rewrite rev_app_distr, rev_involutive.
Qed.

Lemma drop_common_app (a t : list string) : drop_common a (a ++ t) = ([], t).
Proof.
  induction a as [|x a IH]; [by destruct t|].
  simpl. by rewrite String.eqb_refl.
Qed.

Lemma drop_common_refl (a : list string) : drop_common a a = ([], []).
Proof. rewrite <- (app_nil_r a) at 2. apply drop_common_app. Qed.

Lemma path_relative_under (base : string) (segs : list string) :
  segs <> [] ->
  Forall (fun n => plain_name n = true) segs ->
  path_relative base (base +:+ "/" +:+ join_with "/" segs) = join_with "/" segs.
Proof.
  intros Hne Hp. unfold path_relative.
  by rewrite segments_under, drop_common_app by done.
Qed.

Lemma locate_under (base : string) (segs : list string) :
  segs <> [] ->
  Forall (fun n => plain_name n = true) segs ->
  locate base (base +:+ "/" +:+ join_with "/" segs) = Some segs.
Proof.
  intros Hne Hp. unfold locate.
  by rewrite segments_under, drop_common_app by done.
Qed.

Lemma locate_root (base : string) : locate base base = Some [].
Proof. unfold locate. by rewrite drop_common_refl. Qed.

Lemma dirOf_snoc (base : string) (rel : list string) (n : string) :
  path_join (dirOf base rel) n = dirOf base (rel ++ [n]).
Proof. unfold dirOf. by rewrite fold_left_app. Qed.

Lemma dirOf_join (base : string) (rel : list string) :
  rel <> [] -> dirOf base rel = path_join base (join_with "/" rel).
Proof.
  unfold dirOf. revert base. induction rel as [|x rel IH]; [done|].
  intros base _. destruct rel as [|y rel]; [done|].
  change (fold_left path_join (x :: y :: rel) base)
    with (fold_left path_join (y :: rel) (path_join base x)).
  rewrite IH by done. unfold path_join. rewrite join_with_cons.
  by rewrite !sapp_assoc.
Qed.

Lemma join_with_plain_not_absolute (segs : list string) :
  Forall (fun n => plain_name n = true) segs ->
  path_isAbsolute (join_with "/" segs) = false.
Proof.
  destruct 1 as [|x segs Hx Hs]; [done|].
  apply plain_name_spec in Hx as (Hne & Hsl & _).
  destruct x as [|c x]; [done|].
  simpl in Hsl. apply orb_false_iff in Hsl as [Hc _].
  assert (join_with "/" (String c x :: segs)
          = String c (match segs with [] => x | _ => x +:+ "/" +:+ join_with "/" segs end))
    as -> by (by destruct segs).
  unfold path_isAbsolute. simpl. fold slash. by rewrite Hc.
Qed.

Lemma join_with_last_endsWith (segs : list string) (n suf : string) :
  endsWith n suf = true -> endsWith (join_with "/" (segs ++ [n])) suf = true.
Proof.
  intros H. destruct segs as [|a segs]; [done|].
  rewrite join_with_snoc by done. by apply endsWith_app_r, endsWith_app_r.
Qed.

(** ** The sanitizer *)

Lemma sanitizeFileName_chars (s : string) :
  sanitizeFileName s = map_chars sanitize_char s.
Proof.
  unfold sanitizeFileName, toLowerCase.
  induction s as [|c s IH]; [done|]. simpl. by rewrite IH.
Qed.

Lemma sanitize_char_idem (c : ascii) :
  sanitize_char (sanitize_char c) = sanitize_char c.
Proof. destruct c as [[] [] [] [] [] [] [] []]; vm_compute; reflexivity. Qed.

Lemma sanitize_char_not_slash (c : ascii) : Ascii.eqb (sanitize_char c) slash = false.
Proof. destruct c as [[] [] [] [] [] [] [] []]; vm_compute; reflexivity. Qed.

(** Sanitizing twice is sanitizing once. *)
Lemma sanitizeFileName_idem (s : string) :
  sanitizeFileName (sanitizeFileName s) = sanitizeFileName s.
Proof.
  rewrite !sanitizeFileName_chars.
  induction s as [|c s IH]; [done|]. simpl. by rewrite sanitize_char_idem, IH.
Qed.

Lemma sanitizeFileName_no_slash (s : string) :
  contains_char slash (sanitizeFileName s) = false.
Proof.
  rewrite sanitizeFileName_chars.
  induction s as [|c s IH]; [done|]. simpl. by rewrite sanitize_char_not_slash, IH.
Qed.

(** The direct candidate [<sanitized>.md] is a plain name. *)
Lemma sanitized_target_plain (s : string) :
  plain_name (sanitizeFileName s +:+ ".md") = true.
Proof.
  unfold plain_name.
  rewrite contains_char_app, sanitizeFileName_no_slash.
  assert (forall t, String.length t < 3 -> sanitizeFileName s +:+ ".md" <> t) as Hlen.
  { intros t Ht E. apply (f_equal String.length) in E.
    rewrite slength_app in E. simpl in E. lia. }
  rewrite !andb_true_iff, !negb_true_iff, !String.eqb_neq.
  repeat split; try done; apply Hlen; simpl; lia.
Qed.

(** ** The walk over the tree *)

(** Induction over entries, with the hypothesis for every child of a
    directory. *)
Lemma entry_nested_ind (P : entry -> Prop) :
  (forall n c, P (File n c)) ->
  (forall n l children, Forall P children -> P (Dir n l children)) ->
  (forall n, P (Other n)) ->
  forall e, P e.
Proof.
  intros HF HD HO. fix IH 1. intros [n c|n l children|n].
  - apply HF.
  - apply HD. induction children as [|x xs IHxs]; constructor; [apply IH|apply IHxs].
  - apply HO.
Qed.

Lemma find_map_flat_map {A B C} (f : B -> option C) (g : A -> list B) (l : list A) :
  find_map f (flat_map g l) = find_map (fun x => find_map f (g x)) l.
Proof.
  induction l as [|x l IH]; [done|]. simpl.
  induction (g x) as [|y ys IHy]; [done|]. simpl. by destruct (f y).
Qed.

Lemma find_map_map {A B C} (f : B -> option C) (g : A -> B) (l : list A) :
  find_map f (map g l) = find_map (fun x => f (g x)) l.
Proof. induction l as [|x l IH]; [done|]. simpl. by rewrite IH. Qed.

Lemma find_map_ext {A B} (f g : A -> option B) (l : list A) :
  Forall (fun x => f x = g x) l -> find_map f l = find_map g l.
Proof. induction 1 as [|x l Hx _ IH]; [done|]. simpl. by rewrite Hx, IH. Qed.

Lemma find_map_Some {A B} (f : A -> option B) (l : list A) (y : B) :
  find_map f l = Some y -> exists x, x ∈ l /\ f x = Some y.
Proof.
  induction l as [|x l IH]; [done|]. simpl.
  destruct (f x) as [z|] eqn:E.
  - intros [= <-]. exists x. split; [left|done].
  - intros (x' & Hin & Hx')%IH. exists x'. split; [by right|done].
Qed.

Lemma find_map_None {A B} (f : A -> option B) (l : list A) :
  find_map f l = None <-> forall x, x ∈ l -> f x = None.
Proof.
  induction l as [|x l IH]; simpl.
  - split; [|done]. intros _ x Hx. by apply elem_of_nil in Hx.
  - destruct (f x) as [z|] eqn:E.
    + split; [done|]. intros H. specialize (H x (list_elem_of_here _ _)). congruence.
    + rewrite IH. split.
      * intros H x' [->|Hx']%elem_of_cons; auto.
      * intros H x' Hx'. apply H. by right.
Qed.

Lemma forallb_Forall {A} (f : A -> bool) (l : list A) :
  forallb f l = true -> Forall (fun x => f x = true) l.
Proof.
  induction l as [|x l IH]; [constructor|].
  simpl. intros [Hx Hl]%andb_true_iff. constructor; auto.
Qed.

Lemma wf_entry_plain (e : entry) : wf_entry e = true -> plain_name (entry_name e) = true.
Proof. destruct e; simpl; intros H; apply andb_true_iff in H; tauto. Qed.

Lemma wf_entry_children (n : string) (l : bool) (children : list entry) :
  wf_entry (Dir n l children) = true -> Forall (fun e => wf_entry e = true) children.
Proof.
  simpl. rewrite !andb_true_iff. intros (_ & H & _).
  by apply forallb_Forall.
Qed.

Lemma wf_entries_Forall (es : list entry) :
  wf_entries es = true -> Forall (fun e => wf_entry e = true) es.
Proof.
  unfold wf_entries. rewrite andb_true_iff. intros [H _].
  by apply forallb_Forall.
Qed.

Section Walk.
Context (base : string).

(** The scanner lists exactly the documents the walk reaches, as paths
    relative to the root. *)
Lemma scanEntry_visible (e : entry) :
  forall rel,
    Forall (fun n => plain_name n = true) rel ->
    wf_entry e = true ->
    scanEntry base (dirOf base rel) e = map (join_with "/") (visibleFiles rel e).
Proof.
  induction e as [n c|n l children IH|n] using entry_nested_ind;
    intros rel Hrel Hwf; simpl;
    destruct (startsWith _ ".") eqn:Hhid; try done.
  - destruct (endsWith n ".md"); [|done]. simpl. f_equal.
    rewrite dirOf_snoc, dirOf_join by (by destruct rel).
    apply path_relative_under; [by destruct rel|].
    apply Forall_app; split; [done|]. repeat constructor.
    by apply wf_entry_plain in Hwf.
  - destruct l; [|done].
    rewrite dirOf_snoc.
    assert (Forall (fun n => plain_name n = true) (rel ++ [n])) as Hrel'.
    { apply Forall_app; split; [done|]. repeat constructor.
      by apply wf_entry_plain in Hwf. }
    apply wf_entry_children in Hwf.
    induction children as [|x xs IHxs]; [done|].
    simpl. rewrite map_app.
    apply Forall_cons in IH as [IHx IHrest]. apply Forall_cons in Hwf as [Hx Hxs].
    f_equal; [by apply IHx|by apply IHxs].
Qed.

(** What a walked document looks like: plain, visible segments, the last
    of which carries the extension. *)
Lemma visibleFiles_spec (e : entry) :
  forall rel segs,
    wf_entry e = true ->
    segs ∈ visibleFiles rel e ->
    exists below,
      segs = rel ++ below /\ below <> [] /\
      Forall (fun n => plain_name n = true) below /\
      Forall (fun n => startsWith n "." = false) below /\
      endsWith (join_with "/" segs) ".md" = true.
Proof.
  induction e as [n c|n l children IH|n] using entry_nested_ind;
    intros rel segs Hwf; simpl;
    destruct (startsWith _ ".") eqn:Hhid; try (by intros ?%elem_of_nil).
  - destruct (endsWith n ".md") eqn:Hmd; [|by intros ?%elem_of_nil].
    intros ->%list_elem_of_singleton. exists [n]. split_and!; try done.
    + repeat constructor. by apply wf_entry_plain in Hwf.
    + by repeat constructor.
    + by apply join_with_last_endsWith.
  - destruct l; [|by intros ?%elem_of_nil].
    pose proof (wf_entry_plain _ Hwf) as Hn. apply wf_entry_children in Hwf.
    rewrite list_elem_of_In, in_flat_map.
    intros (x & Hx & Hsegs). apply list_elem_of_In in Hx, Hsegs.
    rewrite Forall_forall in IH, Hwf.
    destruct (IH x Hx (rel ++ [n]) segs (Hwf x Hx) Hsegs)
      as (below & -> & Hne & Hp & Hv & Hmd).
    exists (n :: below). rewrite <- app_assoc. split_and!; try done.
    + by constructor.
    + by constructor.
    + by rewrite <- app_assoc in Hmd.
Qed.

End Walk.

(** ** The scanner at the root *)

Section Root.
Context (promptsDir : string).

Lemma findMarkdownFiles_visible (r : root_state) :
  wf_root r = true ->
  findMarkdownFiles promptsDir r = map (join_with "/") (rootVisible r).
Proof.
  intros Hwf%wf_entries_Forall.
  unfold findMarkdownFiles, findMarkdownFiles_in, rootVisible.
  destruct (root_listable r); [|done].
  induction Hwf as [|x xs Hx _ IH]; [done|].
  simpl. rewrite map_app, <- IH. f_equal.
  by apply (scanEntry_visible promptsDir x []).
Qed.

(** Every scanned path is the join of plain, visible segments and ends in
    the document extension. *)
Lemma findMarkdownFiles_spec (r : root_state) (p : string) :
  wf_root r = true ->
  p ∈ findMarkdownFiles promptsDir r ->
  exists segs,
    p = join_with "/" segs /\ segs <> [] /\
    Forall (fun n => plain_name n = true) segs /\
    Forall (fun n => startsWith n "." = false) segs /\
    endsWith p ".md" = true.
Proof.
  intros Hwf. rewrite findMarkdownFiles_visible by done.
  intros (segs & -> & Hin)%list_elem_of_fmap.
  unfold rootVisible in Hin. destruct (root_listable r); [|by apply elem_of_nil in Hin].
  apply list_elem_of_In, in_flat_map in Hin as (x & Hx & Hsegs).
  apply list_elem_of_In in Hx, Hsegs.
  apply wf_entries_Forall in Hwf. rewrite Forall_forall in Hwf.
  destruct (visibleFiles_spec x [] segs (Hwf x Hx) Hsegs)
    as (below & -> & Hne & Hp & Hv & Hmd).
  by exists below.
Qed.

Lemma scanned_endsWith_md (r : root_state) (p : string) :
  wf_root r = true -> p ∈ findMarkdownFiles promptsDir r -> endsWith p ".md" = true.
Proof. intros Hwf Hp. by destruct (findMarkdownFiles_spec r p Hwf Hp) as (? & _ & _ & _ & _ & ?). Qed.



(** ** The resolver against the scanner *)

Lemma searchEntry_visible (requested sanitizedName : string) (e : entry) :
  forall rel,
    Forall (fun n => plain_name n = true) rel ->
    wf_entry e = true ->
    searchEntry requested sanitizedName promptsDir (dirOf promptsDir rel) e
    = find_map (fun segs => candidate promptsDir requested sanitizedName (join_with "/" segs))
        (visibleFiles rel e).
Proof.
  induction e as [n c|n l children IH|n] using entry_nested_ind;
    intros rel Hrel Hwf; simpl;
    destruct (startsWith _ ".") eqn:Hhid; try done.
  - destruct (endsWith n ".md"); [|done]. simpl. unfold candidate.
    rewrite dirOf_snoc, dirOf_join by (by destruct rel).
    unfold path_join at 1 2 3. rewrite path_relative_under.
    + by repeat case_match.
    + by destruct rel.
    + apply Forall_app; split; [done|]. repeat constructor.
      by apply wf_entry_plain in Hwf.
  - destruct l; [|done].
    rewrite dirOf_snoc, find_map_flat_map.
    assert (Forall (fun n => plain_name n = true) (rel ++ [n])) as Hrel'.
    { apply Forall_app; split; [done|]. repeat constructor.
      by apply wf_entry_plain in Hwf. }
    apply wf_entry_children in Hwf.
    apply find_map_ext. rewrite Forall_forall in IH, Hwf |- *.
    intros x Hx. by apply IH; [|  |apply Hwf].
Qed.

(** The walk of the resolver returns the first scanned document that is a
    candidate. *)
Lemma searchDir_scan (requested sanitizedName : string) (r : root_state) :
  wf_root r = true ->
  searchDir promptsDir requested sanitizedName r
  = find_map (candidate promptsDir requested sanitizedName) (findMarkdownFiles promptsDir r).
Proof.
  intros Hwf. rewrite findMarkdownFiles_visible, find_map_map by done.
  unfold searchDir, rootVisible. destruct (root_listable r); [|done].
  rewrite find_map_flat_map. apply find_map_ext.
  apply wf_entries_Forall in Hwf. rewrite Forall_forall in Hwf |- *.
  intros x Hx. by apply (searchEntry_visible requested sanitizedName x []); [|apply Hwf].
Qed.

(** The direct lookup succeeds exactly when the root has an entry of the
    sanitized name with the extension. *)
Lemma direct_access (r : root_state) (requested : string) :
  fs_access promptsDir r (path_join promptsDir (sanitizeFileName requested +:+ ".md"))
  = match find_entry (sanitizeFileName requested +:+ ".md") (root_entries r) with
    | Some _ => Ok tt
    | None => Throw "ENOENT"
    end.
Proof.
  unfold fs_access, path_join.
  pose proof (locate_under promptsDir [sanitizeFileName requested +:+ ".md"]) as H.
  simpl in H. rewrite H; [done|done|].
  repeat constructor. apply sanitized_target_plain.
Qed.

Lemma findPromptFile_unfold (r : root_state) (requested : string) :
  wf_root r = true ->
  findPromptFile promptsDir r requested
  = match find_entry (sanitizeFileName requested +:+ ".md") (root_entries r) with
    | Some _ => Some (path_join promptsDir (sanitizeFileName requested +:+ ".md"))
    | None => find_map (candidate promptsDir requested (sanitizeFileName requested))
                (findMarkdownFiles promptsDir r)
    end.
Proof.
  intros Hwf. unfold findPromptFile. rewrite direct_access.
  destruct (find_entry _ _); [done|]. by apply searchDir_scan.
Qed.

Lemma candidate_Some (requested rel filePath : string) :
  candidate promptsDir requested (sanitizeFileName requested) rel = Some filePath ->
  filePath = path_join promptsDir rel /\
  sanitizeFileName (stripMd rel) = sanitizeFileName requested.
Proof.
  unfold candidate.
  destruct (String.eqb_spec (stripMd rel) requested) as [->|_].
  { by intros [= <-]. }
  destruct (String.eqb_spec (sanitizeFileName (stripMd rel)) (sanitizeFileName requested))
    as [->|_]; [by intros [= <-]|done].
Qed.

Lemma candidate_None (requested rel : string) :
  candidate promptsDir requested (sanitizeFileName requested) rel = None ->
  sanitizeFileName (stripMd rel) <> sanitizeFileName requested.
Proof.
  unfold candidate.
  destruct (String.eqb_spec (stripMd rel) requested) as [->|_]; [done|].
  by destruct (String.eqb_spec (sanitizeFileName (stripMd rel)) (sanitizeFileName requested)).
Qed.

End Root.

(** ** The scanner against the tree *)

Lemma find_entry_Some (n : string) (es : list entry) (e : entry) :
  find_entry n es = Some e -> e ∈ es /\ entry_name e = n.
Proof.
  induction es as [|x es IH]; [done|]. simpl.
  destruct (String.eqb_spec (entry_name x) n) as [E|_].
  - intros [= <-]. split; [left|done].
  - intros [Hin Hn]%IH. split; [by right|done].
Qed.

Lemma find_entry_distinct (es : list entry) (x : entry) :
  names_distinct (map entry_name es) = true ->
  x ∈ es -> find_entry (entry_name x) es = Some x.
Proof.
  induction es as [|y es IH]; [by intros _ ?%elem_of_nil|].
  simpl. intros [Hfresh Hrest]%andb_true_iff [->|Hin]%elem_of_cons.
  - by rewrite String.eqb_refl.
  - destruct (String.eqb_spec (entry_name y) (entry_name x)) as [E|_]; [|by apply IH].
    apply negb_true_iff in Hfresh.
    assert (existsb (String.eqb (entry_name y)) (map entry_name es) = true) as Hex; [|congruence].
    apply existsb_exists. exists (entry_name x). split.
    + apply in_map. by apply list_elem_of_In.
    + rewrite E. apply String.eqb_refl.
Qed.

Lemma visibleAt_node (segs : list string) :
  forall es e, visibleAt segs es = Some e -> node_at segs es = Some e.
Proof.
  induction segs as [|n below IH]; [done|]. intros es e. simpl.
  destruct (startsWith n "."); [done|].
  destruct (find_entry n es) as [x|]; [|done].
  destruct x as [| ? [] children|], below as [|m below]; try done. apply IH.
Qed.

(** Looking along segments below one entry of a directory with distinct
    names is looking in the directory. *)
Lemma visibleAt_in (segs : list string) (es : list entry) (x e : entry) :
  names_distinct (map entry_name es) = true ->
  x ∈ es ->
  visibleAt segs [x] = Some e -> visibleAt segs es = Some e.
Proof.
  intros Hd Hx. destruct segs as [|n below]; [done|]. simpl.
  destruct (startsWith n "."); [done|].
  destruct (String.eqb_spec (entry_name x) n) as [<-|_]; [|done].
  by rewrite (find_entry_distinct es x Hd Hx).
Qed.

Lemma wf_entry_distinct (n : string) (l : bool) (children : list entry) :
  wf_entry (Dir n l children) = true -> names_distinct (map entry_name children) = true.
Proof. simpl. rewrite !andb_true_iff. tauto. Qed.

(** Every segment list of the walk leads to a document of the tree. *)
Lemma visibleFiles_at (e : entry) :
  forall rel segs,
    wf_entry e = true ->
    segs ∈ visibleFiles rel e ->
    exists below n c,
      segs = rel ++ below /\
      visibleAt below [e] = Some (File n c) /\ endsWith n ".md" = true.
Proof.
  induction e as [n c|n l children IH|n] using entry_nested_ind;
    intros rel segs Hwf; simpl;
    destruct (startsWith _ ".") eqn:Hhid; try (by intros ?%elem_of_nil).
  - destruct (endsWith n ".md") eqn:Hmd; [|by intros ?%elem_of_nil].
    intros ->%list_elem_of_singleton. exists [n], n, c. simpl.
    by rewrite Hhid, String.eqb_refl.
  - destruct l; [|by intros ?%elem_of_nil].
    pose proof (wf_entry_distinct _ _ _ Hwf) as Hd. apply wf_entry_children in Hwf.
    rewrite list_elem_of_In, in_flat_map.
    intros (x & Hx & Hsegs). apply list_elem_of_In in Hx, Hsegs.
    rewrite Forall_forall in IH, Hwf.
    destruct (IH x Hx (rel ++ [n]) segs (Hwf x Hx) Hsegs)
      as (below & m & c & -> & Hat & Hmd).
    exists (n :: below), m, c. rewrite <- app_assoc. split; [done|]. split; [|done].
    simpl. rewrite Hhid, String.eqb_refl.
    destruct below as [|b below]; [done|]. by apply (visibleAt_in _ children x).
Qed.

(** Every document the walk can reach is in its result. *)
Lemma visibleAt_files (below : list string) :
  forall es rel n c,
    visibleAt below es = Some (File n c) ->
    endsWith n ".md" = true ->
    rel ++ below ∈ flat_map (visibleFiles rel) es.
Proof.
  induction below as [|m below IH]; [done|]. intros es rel n c. simpl.
  destruct (startsWith m ".") eqn:Hhid; [done|].
  destruct (find_entry m es) as [e|] eqn:Hfind; [|done].
  apply find_entry_Some in Hfind as [Hin <-].
  intros Hat Hmd. apply list_elem_of_In, in_flat_map. exists e.
  split; [by apply list_elem_of_In|]. apply list_elem_of_In.
  destruct below as [|b below].
  - assert (e = File n c) as -> by (destruct e as [| ? [] ?|]; congruence).
    simpl in *. rewrite Hhid, Hmd. by left.
  - destruct e as [|d [] children|]; try done. simpl in *. rewrite Hhid.
    specialize (IH children (rel ++ [d]) n c Hat Hmd).
    by rewrite <- app_assoc in IH.
Qed.

Section ScanTree.
Context (promptsDir : string).

(** The scan lists a path exactly when the root can be listed and the
    walk reaches a document along the segments of the path. *)
Lemma findMarkdownFiles_iff (r : root_state) (segs : list string) :
  wf_root r = true ->
  Forall (fun n => plain_name n = true) segs ->
  join_with "/" segs ∈ findMarkdownFiles promptsDir r <->
  root_listable r = true /\
  exists n c, visibleAt segs (root_entries r) = Some (File n c) /\
              endsWith n ".md" = true.
Proof.
  intros Hwf Hplain. rewrite findMarkdownFiles_visible by done.
  unfold rootVisible. split.
  - intros (segs' & Hjoin & Hin)%list_elem_of_fmap.
    destruct (root_listable r); [|by apply elem_of_nil in Hin]. split; [done|].
    apply list_elem_of_In, in_flat_map in Hin as (x & Hx & Hsegs).
    apply list_elem_of_In in Hx, Hsegs.
    pose proof Hwf as [Hall Hd]%andb_true_iff.
    apply forallb_Forall in Hall. rewrite Forall_forall in Hall.
    destruct (visibleFiles_spec x [] segs' (Hall x Hx) Hsegs)
      as (below & -> & Hne & Hp & _ & _).
    destruct (visibleFiles_at x [] below (Hall x Hx) Hsegs)
      as (below' & n & c & Heq & Hat & Hmd).
    simpl in Heq. subst below'.
    assert (segs = below) as ->.
    { apply (f_equal split_slash) in Hjoin. simpl in Hjoin.
      rewrite (split_slash_join below) in Hjoin by auto using plain_no_slash.
      destruct segs as [|s0 segs].
      - simpl in Hjoin. subst below. apply Forall_inv in Hp. by vm_compute in Hp.
      - by rewrite split_slash_join in Hjoin by auto using plain_no_slash. }
    exists n, c. split; [|done]. by apply (visibleAt_in _ _ x).
  - intros [-> (n & c & Hat & Hmd)]. apply list_elem_of_fmap. exists segs.
    split; [done|]. by apply (visibleAt_files segs _ [] n c).
Qed.

(** Reading a scanned path reads the document the walk reached. *)
Lemma scanned_read (r : root_state) (segs : list string) (n : string)
    (c : option string) :
  Forall (fun n => plain_name n = true) segs ->
  visibleAt segs (root_entries r) = Some (File n c) ->
  fs_readFile promptsDir r (path_join promptsDir (join_with "/" segs))
  = match c with Some text => Ok text | None => Throw "EACCES" end.
Proof.
  intros Hplain Hat. unfold fs_readFile, path_join.
  rewrite locate_under; [|by destruct segs|done].
  by rewrite (visibleAt_node _ _ _ Hat).
Qed.

End ScanTree.

(** ** The resolver of src/fileOperations.ts against the scanner *)

Section ExactFacts.
Context (promptsDir : string).

Lemma exact_searchEntry_visible (requested : string) (e : entry) :
  forall rel,
    Forall (fun n => plain_name n = true) rel ->
    wf_entry e = true ->
    ExactResolver.searchEntry requested promptsDir (dirOf promptsDir rel) e
    = find_map (fun segs => exactCandidate promptsDir requested (join_with "/" segs))
        (visibleFiles rel e).
Proof.
  induction e as [n c|n l children IH|n] using entry_nested_ind;
    intros rel Hrel Hwf; simpl;
    destruct (startsWith _ ".") eqn:Hhid; try done.
  - destruct (endsWith n ".md"); [|done]. simpl. unfold exactCandidate.
    rewrite dirOf_snoc, dirOf_join by (by destruct rel).
    unfold path_join at 1 2. rewrite path_relative_under.
    + by case_match.
    + by destruct rel.
    + apply Forall_app; split; [done|]. repeat constructor.
      by apply wf_entry_plain in Hwf.
  - destruct l; [|done].
    rewrite dirOf_snoc, find_map_flat_map.
    assert (Forall (fun n => plain_name n = true) (rel ++ [n])) as Hrel'.
    { apply Forall_app; split; [done|]. repeat constructor.
      by apply wf_entry_plain in Hwf. }
    apply wf_entry_children in Hwf.
    apply find_map_ext. rewrite Forall_forall in IH, Hwf |- *.
    intros x Hx. by apply IH; [|  |apply Hwf].
Qed.

(** This resolver returns the first scanned document whose
    extension-stripped path is the requested name, and nothing else. *)
Lemma exact_findPromptFile_scan (r : root_state) (requested : string) :
  wf_root r = true ->
  ExactResolver.findPromptFile promptsDir r requested
  = find_map (exactCandidate promptsDir requested) (findMarkdownFiles promptsDir r).
Proof.
  intros Hwf. rewrite findMarkdownFiles_visible, find_map_map by done.
  unfold ExactResolver.findPromptFile, rootVisible. destruct (root_listable r); [|done].
  rewrite find_map_flat_map. apply find_map_ext.
  apply wf_entries_Forall in Hwf. rewrite Forall_forall in Hwf |- *.
  intros x Hx. by apply (exact_searchEntry_visible requested x []); [|apply Hwf].
Qed.

(** So it returns the scanned document of the requested path, and fails
    when there is none. *)
Lemma exact_findPromptFile_spec (r : root_state) (requested : string) :
  wf_root r = true ->
  (forall rel,
      rel ∈ findMarkdownFiles promptsDir r -> stripMd rel = requested ->
      ExactResolver.findPromptFile promptsDir r requested
      = Some (path_join promptsDir rel)) /\
  ((forall rel, rel ∈ findMarkdownFiles promptsDir r -> stripMd rel <> requested) ->
   ExactResolver.findPromptFile promptsDir r requested = None).
Proof.
  intros Hwf. rewrite exact_findPromptFile_scan by done. split.
  - intros rel Hrel Hexact.
    destruct (find_map _ _) as [fp|] eqn:E.
    + apply find_map_Some in E as (rel' & Hrel' & Hcand). unfold exactCandidate in Hcand.
      destruct (String.eqb_spec (stripMd rel') requested) as [E'|_]; [|done].
      injection Hcand as <-. do 2 f_equal.
      rewrite <- (stripMd_of_md rel'), <- (stripMd_of_md rel)
        by eauto using scanned_endsWith_md.
      congruence.
    + apply (proj1 (find_map_None _ _)) with (x := rel) in E; [|done].
      unfold exactCandidate in E. apply String.eqb_eq in Hexact. by rewrite Hexact in E.
  - intros Hnone. apply find_map_None. intros rel Hrel. unfold exactCandidate.
    specialize (Hnone rel Hrel). apply String.eqb_neq in Hnone. by rewrite Hnone.
Qed.

(** Its failures carry the one message too. *)
Lemma exact_readPrompt_one_message (r : root_state) (requested e : string) :
  ExactResolver.readPrompt promptsDir r requested = Throw e -> e = notFound requested.
Proof.
  unfold ExactResolver.readPrompt.
  destruct (ExactResolver.findPromptFile promptsDir r requested) as [filePath|];
    [|by intros [= <-]].
  destruct (fs_readFile promptsDir r filePath); [done|by intros [= <-]].
Qed.

End ExactFacts.

(** ** The cache operations as functions on the map *)

Section CacheFacts.
Context (promptsDir : string) (matter : string -> outcome GrayMatterFile).

Lemma state_eta (s : State) : {| fs := fs s; cache := cache s |} = s.
Proof. by destruct s. Qed.

Lemma loadPromptMetadata_run (fileName : string) (s : State) :
  loadPromptMetadata promptsDir matter fileName s = (Ok (loadResult promptsDir matter (fs s) fileName), s).
Proof.
  unfold loadPromptMetadata, loadResult, try_catch, bind, lift, ret.
  destruct (fs_readFile _ _ _) as [text|]; [|done].
  by destruct (matter text).
Qed.

Lemma loadResult_name (r : root_state) (fileName : string) (info : PromptInfo) :
  loadResult promptsDir matter r fileName = Some info -> name info = canonicalName fileName.
Proof.
  unfold loadResult. destruct (fs_readFile _ _ _) as [text|]; [|done].
  destruct (matter text); [|done]. by intros [= <-].
Qed.

Lemma updateCacheForFile_run (filePath : string) (s : State) :
  updateCacheForFile promptsDir matter filePath s
  = (Ok tt, {| fs := fs s; cache := upsert promptsDir matter (fs s) filePath (cache s) |}).
Proof.
  unfold updateCacheForFile, upsert.
  destruct (endsWith filePath ".md"); simpl; [|by rewrite state_eta].
  unfold bind. rewrite loadPromptMetadata_run.
  destruct (loadResult _ _); [done|]. unfold ret. by rewrite state_eta.
Qed.

Lemma removeFromCache_run (filePath : string) (s : State) :
  removeFromCache promptsDir filePath s
  = (Ok tt, {| fs := fs s;
               cache := if endsWith filePath ".md"
                        then delete (canonicalName (toRelative promptsDir filePath)) (cache s)
                        else cache s |}).
Proof.
  unfold removeFromCache.
  destruct (endsWith filePath ".md"); simpl; [done|]. unfold ret. by rewrite state_eta.
Qed.

Lemma promiseAll_updates (files : list string) (s : State) :
  promiseAll (map (updateCacheForFile promptsDir matter) files) s
  = (Ok tt, {| fs := fs s;
               cache := foldl (fun c p => upsert promptsDir matter (fs s) p c) (cache s) files |}).
Proof.
  revert s. induction files as [|p files IH]; intros s; simpl.
  - unfold ret. by rewrite state_eta.
  - rewrite updateCacheForFile_run. by rewrite IH.
Qed.

Lemma ensurePromptsDir_present (l : bool) (es : list entry) (c : gmap string PromptInfo) :
  ensurePromptsDir promptsDir {| fs := RootPresent l es; cache := c |}
  = (Ok tt, {| fs := RootPresent l es; cache := c |}).
Proof. unfold ensurePromptsDir, try_catch, fs_access. simpl. by rewrite locate_root. Qed.

Lemma ensurePromptsDir_absent (creatable : bool) (c : gmap string PromptInfo) :
  ensurePromptsDir promptsDir {| fs := RootAbsent creatable; cache := c |}
  = if creatable
    then (Ok tt, {| fs := RootPresent true []; cache := c |})
    else (Throw "EACCES", {| fs := RootAbsent false; cache := c |}).
Proof.
  unfold ensurePromptsDir, try_catch, fs_access. simpl. rewrite locate_root. simpl.
  by destruct creatable.
Qed.

Lemma initializeCache_present (sched : list nat) (l : bool) (es : list entry)
    (c : gmap string PromptInfo) :
  initializeCache promptsDir matter sched {| fs := RootPresent l es; cache := c |}
  = (Ok tt, {| fs := RootPresent l es;
               cache := loadedIndex promptsDir matter (RootPresent l es) sched |}).
Proof.
  unfold initializeCache, bind at 1.
  rewrite ensurePromptsDir_present.
  unfold try_catch, bind, with_fs, modify_cache. simpl.
  by rewrite promiseAll_updates.
Qed.

Lemma initializeCache_absent (sched : list nat) (creatable : bool)
    (c : gmap string PromptInfo) :
  initializeCache promptsDir matter sched {| fs := RootAbsent creatable; cache := c |}
  = if creatable
    then (Ok tt, {| fs := RootPresent true []; cache := ∅ |})
    else (Throw "EACCES", {| fs := RootAbsent false; cache := c |}).
Proof.
  unfold initializeCache, bind at 1.
  rewrite ensurePromptsDir_absent. by destruct creatable.
Qed.

(** In a map keyed by name the records listed have pairwise distinct
    names. *)
Lemma keyed_names_NoDup (s : State) :
  keyed (cache s) -> NoDup (name <$> getAllPrompts s).
Proof.
  intros Hk. unfold getAllPrompts.
  assert (name <$> (snd <$> map_to_list (cache s)) = fst <$> map_to_list (cache s)) as ->.
  { rewrite <- list_fmap_compose. apply Forall_fmap_ext, Forall_forall.
    intros [k info] Hin%elem_of_map_to_list. by apply Hk in Hin. }
  apply NoDup_fst_map_to_list.
Qed.

Lemma upsert_keyed (r : root_state) (filePath : string) (c : gmap string PromptInfo) :
  keyed c -> keyed (upsert promptsDir matter r filePath c).
Proof.
  intros Hk. unfold upsert. destruct (endsWith filePath ".md"); [|done].
  destruct (loadResult _ _ _ _) as [info|]; [|done].
  by apply map_Forall_insert_2.
Qed.

Lemma foldl_upsert_keyed (r : root_state) (files : list string)
    (c : gmap string PromptInfo) :
  keyed c -> keyed (foldl (fun c p => upsert promptsDir matter r p c) c files).
Proof.
  revert c. induction files as [|p files IH]; intros c Hk; [done|].
  simpl. by apply IH, upsert_keyed.
Qed.

(** Being keyed by name is an invariant of the three mutations. *)
Lemma mutations_keep_keyed (s : State) :
  keyed (cache s) ->
  (forall p, keyed (cache (snd (updateCacheForFile promptsDir matter p s)))) /\
  (forall p, keyed (cache (snd (removeFromCache promptsDir p s)))) /\
  (forall sched, keyed (cache (snd (initializeCache promptsDir matter sched s)))).
Proof.
  intros Hk. split_and!.
  - intros p. rewrite updateCacheForFile_run. simpl. by apply upsert_keyed.
  - intros p. rewrite removeFromCache_run. simpl.
    destruct (endsWith p ".md"); [|done]. by apply map_Forall_delete.
  - intros sched. destruct s as [[creatable|l es] c]; simpl in *.
    + rewrite initializeCache_absent. destruct creatable; [|done].
      simpl. apply map_Forall_empty.
    + rewrite initializeCache_present. simpl. unfold loadedIndex.
      apply foldl_upsert_keyed, map_Forall_empty.
Qed.

End CacheFacts.

(** ** Completion orders and folds of upserts *)

Lemma insert_at_perm {A} (k : nat) (x : A) (l : list A) : insert_at k x l ≡ₚ x :: l.
Proof.
  unfold insert_at. rewrite <- Permutation_middle. by rewrite take_drop.
Qed.

(** Whatever the schedule, the reads that complete are the reads issued. *)
Lemma completionOrder_perm {A} (sched : list nat) (issued : list A) :
  completionOrder sched issued ≡ₚ issued.
Proof.
  revert sched. induction issued as [|x rest IH]; intros sched; [done|].
  simpl. rewrite insert_at_perm. by rewrite IH.
Qed.

Lemma completionOrder_elem {A} (sched : list nat) (issued : list A) (x : A) :
  x ∈ completionOrder sched issued <-> x ∈ issued.
Proof. by rewrite completionOrder_perm. Qed.

Lemma completionOrder_issue_order {A} (issued : list A) :
  completionOrder [] issued = issued.
Proof. induction issued as [|x rest IH]; [done|]. simpl. by rewrite IH. Qed.

Section Folds.
Context (promptsDir : string) (matter : string -> outcome GrayMatterFile).
Context (r : root_state).

Lemma upsert_loadsTo (p : string) (info : PromptInfo) (c : gmap string PromptInfo) :
  loadsTo promptsDir matter r p info -> upsert promptsDir matter r p c = <[name info := info]> c.
Proof. intros [Hmd Hload]. unfold upsert. by rewrite Hmd, Hload. Qed.

Lemma upsert_lookup (p : string) (c : gmap string PromptInfo) (n : string)
    (info : PromptInfo) :
  upsert promptsDir matter r p c !! n = Some info ->
  c !! n = Some info \/ (loadsTo promptsDir matter r p info /\ name info = n).
Proof.
  unfold upsert, loadsTo.
  destruct (endsWith p ".md"); [|by left].
  destruct (loadResult _ _ _ _) as [i|]; [|by left].
  destruct (decide (name i = n)) as [<-|Hne].
  - rewrite lookup_insert_eq. intros [= ->]. by right.
  - rewrite lookup_insert_ne by done. by left.
Qed.

(** Every entry after a sequence of upserts was there before or is the
    record of one of the files. *)
Lemma foldl_upsert_sound (files : list string) (c : gmap string PromptInfo)
    (n : string) (info : PromptInfo) :
  foldl (fun c p => upsert promptsDir matter r p c) c files !! n = Some info ->
  c !! n = Some info \/ exists p, p ∈ files /\ loadsTo promptsDir matter r p info /\ name info = n.
Proof.
  induction files as [|q files IH] using rev_ind; [by left|].
  rewrite foldl_app. simpl. intros [H|[H1 H2]]%upsert_lookup.
  - destruct (IH H) as [?|(p & Hp & ?)]; [by left|].
    right. exists p. split; [|done]. apply elem_of_app. by left.
  - right. exists q. split; [|done]. apply elem_of_app. right. by left.
Qed.


(** When no other file loads to a different record of the same name, the
    record of a file that loads is the entry under its name. *)
Lemma foldl_upsert_unique (files : list string) (c : gmap string PromptInfo)
    (p : string) (info : PromptInfo) :
  p ∈ files -> loadsTo promptsDir matter r p info ->
  (forall p' info', p' ∈ files -> loadsTo promptsDir matter r p' info' ->
                    name info' = name info -> info' = info) ->
  foldl (fun c p => upsert promptsDir matter r p c) c files !! name info = Some info.
Proof.
  induction files as [|q files IH] using rev_ind; [by intros ?%elem_of_nil|].
  rewrite foldl_app. simpl. intros Hin Hp Huniq.
  assert (forall p' info', p' ∈ files -> loadsTo promptsDir matter r p' info' ->
                           name info' = name info -> info' = info) as Huniq'.
  { intros p' info' Hp'. apply Huniq, elem_of_app. by left. }
  assert (q ∈ files ++ [q]) as Hq by (apply elem_of_app; right; by left).
  assert (p = q \/ p ∈ files) as [->|Hin'].
  { apply elem_of_app in Hin as [?|Hq']; [by right|].
    apply list_elem_of_singleton in Hq'. by left. }
  - rewrite (upsert_loadsTo q info) by done. by rewrite lookup_insert_eq.
  - specialize (IH Hin' Hp Huniq'). unfold upsert.
    destruct (endsWith q ".md") eqn:Hmd; [|done].
    destruct (loadResult _ _ _ _) as [i|] eqn:Hload; [|done].
    destruct (decide (name i = name info)) as [E|Hne].
    + rewrite (Huniq q i Hq (conj Hmd Hload) E), lookup_insert_eq. done.
    + by rewrite lookup_insert_ne.
Qed.

Lemma hit_or_miss (files : list string) (n : string) :
  (exists p info, p ∈ files /\ loadsTo promptsDir matter r p info /\ name info = n) \/
  (forall p info, p ∈ files -> loadsTo promptsDir matter r p info -> name info <> n).
Proof.
  induction files as [|q files [(p & info & Hp & H)|IH]].
  - right. by intros p info ?%elem_of_nil.
  - left. exists p, info. split; [by right|done].
  - destruct (endsWith q ".md") eqn:Hmd.
    2: { right. intros p info [->|Hp]%elem_of_cons [Hmd' Hload]; [congruence|].
         by apply (IH p info). }
    destruct (loadResult promptsDir matter r (toRelative promptsDir q)) as [i|] eqn:Hload.
    2: { right. intros p info [->|Hp]%elem_of_cons [Hmd' Hload']; [congruence|].
         by apply (IH p info). }
    destruct (decide (name i = n)) as [E|Hne].
    + left. exists q, i. split; [by left|done].
    + right. intros p info [->|Hp]%elem_of_cons [Hmd' Hload'].
      * congruence.
      * by apply (IH p info).
Qed.

Lemma foldl_upsert_miss (files : list string) (c : gmap string PromptInfo) (n : string) :
  (forall p info, p ∈ files -> loadsTo promptsDir matter r p info -> name info <> n) ->
  foldl (fun c p => upsert promptsDir matter r p c) c files !! n = c !! n.
Proof.
  induction files as [|q files IH] using rev_ind; [done|].
  intros Hno. rewrite foldl_app. simpl.
  assert (forall p info, p ∈ files -> loadsTo promptsDir matter r p info -> name info <> n) as Hno'.
  { intros p info Hp. apply Hno, elem_of_app. by left. }
  unfold upsert. destruct (endsWith q ".md") eqn:Hmd; [|auto].
  destruct (loadResult _ _ _ _) as [i|] eqn:Hload; [|auto].
  rewrite lookup_insert_ne; [auto|].
  apply (Hno q i); [apply elem_of_app; right; by left|done].
Qed.

(** With pairwise distinct names among the files that load, the order of
    the upserts does not matter. *)
Lemma foldl_upsert_perm (files files' : list string) (c : gmap string PromptInfo) :
  files ≡ₚ files' ->
  (forall p p' info info', p ∈ files -> p' ∈ files -> loadsTo promptsDir matter r p info ->
                           loadsTo promptsDir matter r p' info' -> name info = name info' -> info = info') ->
  foldl (fun c p => upsert promptsDir matter r p c) c files
  = foldl (fun c p => upsert promptsDir matter r p c) c files'.
Proof.
  intros Hperm Huniq. apply map_eq. intros n.
  destruct (hit_or_miss files n) as [(p & info & Hp & Hload & <-)|Hmiss].
  - rewrite (foldl_upsert_unique files c p info), (foldl_upsert_unique files' c p info);
      try done.
    + by rewrite <- Hperm.
    + intros p' info' Hp' Hload' E. rewrite <- Hperm in Hp'. symmetry. eauto.
    + intros p' info' Hp' Hload' E. symmetry. eauto.
  - rewrite !foldl_upsert_miss; try done.
    intros p info Hp. apply Hmiss. by rewrite Hperm.
Qed.

End Folds.

(** ** The preview, as the specification words it *)

Lemma list_of_sapp (a b : string) :
  list_ascii_of_string (a +:+ b) = list_ascii_of_string a ++ list_ascii_of_string b.
Proof. induction a as [|c a IH]; [done|]. rewrite sapp_cons. simpl. by rewrite IH. Qed.

Lemma list_of_map_chars (f : ascii -> ascii) (s : string) :
  list_ascii_of_string (map_chars f s) = map f (list_ascii_of_string s).
Proof. induction s as [|c s IH]; [done|]. simpl. by rewrite IH. Qed.

Lemma list_of_substring (n : nat) (s : string) :
  list_ascii_of_string (substring 0 n s) = take n (list_ascii_of_string s).
Proof.
  revert s. induction n as [|n IH]; intros [|c s]; simpl; try done.
  by rewrite IH.
Qed.

Lemma list_of_trimStart (s : string) :
  list_ascii_of_string (trimStart s) = dropWhileSpace (list_ascii_of_string s).
Proof. induction s as [|c s IH]; [done|]. simpl. by destruct (is_js_space c). Qed.

Lemma dropWhileSpace_snoc (l : list ascii) (c : ascii) :
  dropWhileSpace (l ++ [c])
  = match dropWhileSpace l with
    | [] => if is_js_space c then [] else [c]
    | kept => kept ++ [c]
    end.
Proof.
  induction l as [|d l IH]; simpl.
  - by destruct (is_js_space c).
  - by destruct (is_js_space d).
Qed.

Lemma list_of_trimEnd (s : string) :
  list_ascii_of_string (trimEnd s)
  = rev (dropWhileSpace (rev (list_ascii_of_string s))).
Proof.
  induction s as [|c s IH]; [done|].
  simpl. rewrite dropWhileSpace_snoc.
  destruct (dropWhileSpace (rev (list_ascii_of_string s))) as [|d kept].
  - destruct (trimEnd s); [|done]. by destruct (is_js_space c).
  - destruct (trimEnd s) as [|x rest].
    + simpl in IH. symmetry in IH. by apply app_eq_nil in IH as [_ ?].
    + rewrite rev_app_distr. simpl. simpl in IH. by rewrite <- IH.
Qed.

(** The preview the loader computes is the preview of the specification. *)
Lemma makePreview_spec (body : string) : makePreview body = previewSpec body.
Proof.
  unfold makePreview, previewSpec, trim, newlinesToSpaces.
  rewrite <- (string_of_list_ascii_of_string (_ +:+ "...")). f_equal.
  rewrite list_of_sapp, list_of_trimEnd, list_of_trimStart.
  by rewrite list_of_map_chars, list_of_substring.
Qed.

Lemma dropWhileSpace_length (l : list ascii) : length (dropWhileSpace l) <= length l.
Proof.
  induction l as [|c l IH]; [done|]. simpl.
  destruct (is_js_space c); simpl; lia.
Qed.

Lemma string_of_list_length (l : list ascii) :
  String.length (string_of_list_ascii l) = length l.
Proof. induction l as [|c l IH]; simpl; congruence. Qed.

Lemma previewSpec_length (body : string) : String.length (previewSpec body) <= 103.
Proof.
  unfold previewSpec. rewrite string_of_list_length, length_app, length_rev.
  pose proof (dropWhileSpace_length
    (rev (dropWhileSpace
       (map (fun c => if Ascii.eqb c newline then space else c)
          (take 100 (list_ascii_of_string body)))))) as H1.
  rewrite length_rev in H1.
  pose proof (dropWhileSpace_length
    (map (fun c => if Ascii.eqb c newline then space else c)
       (take 100 (list_ascii_of_string body)))) as H2.
  rewrite length_map, length_take in H2. simpl. lia.
Qed.

Lemma previewSpec_ellipsis (body : string) : endsWith (previewSpec body) "..." = true.
Proof. rewrite <- makePreview_spec. apply endsWith_app. Qed.

Lemma dropWhileSpace_no_newline (l : list ascii) :
  Forall (fun c => c <> newline) l -> Forall (fun c => c <> newline) (dropWhileSpace l).
Proof.
  induction 1 as [|c l Hc Hl IH]; [constructor|]. simpl.
  destruct (is_js_space c); [done|by constructor].
Qed.

(** No newline is left in a preview. *)
Lemma previewSpec_one_line (body : string) :
  contains_char newline (previewSpec body) = false.
Proof.
  unfold previewSpec.
  set (oneLine := map _ (take 100 (list_ascii_of_string body))).
  assert (Forall (fun c => c <> newline) oneLine) as H.
  { subst oneLine. apply Forall_forall. intros c (d & -> & _)%list_elem_of_fmap.
    destruct (Ascii.eqb_spec d newline); [done|done]. }
  apply dropWhileSpace_no_newline, Forall_rev, dropWhileSpace_no_newline, Forall_rev in H.
  revert H. generalize (rev (dropWhileSpace (rev (dropWhileSpace oneLine)))).
  intros l H. induction H as [|c l Hc _ IH]; [done|].
  change (contains_char newline
            (String c (string_of_list_ascii (l ++ list_ascii_of_string "..."))) = false).
  cbn [contains_char]. rewrite IH. by apply Ascii.eqb_neq in Hc as ->.
Qed.

Lemma flattenSlashes_no_slash (s : string) :
  contains_char slash (flattenSlashes s) = false.
Proof.
  unfold flattenSlashes. induction s as [|c s IH]; [done|].
  simpl. rewrite IH. destruct (Ascii.eqb c slash) eqn:E; [done|]. by rewrite E.
Qed.

Lemma fst_load_result (promptsDir : string) (matter : string -> outcome GrayMatterFile)
    (fileName : string) (s : State) (info : PromptInfo) :
  fst (loadPromptMetadata promptsDir matter fileName s) = Ok (Some info) <->
  loadResult promptsDir matter (fs s) fileName = Some info.
Proof. rewrite loadPromptMetadata_run. simpl. split; [by intros [= ->]|by intros ->]. Qed.

(** ** The two forms of a path below the root *)

Lemma startsWith_app (a b p : string) :
  startsWith a p = true -> startsWith (a +:+ b) p = true.
Proof.
  revert a. induction p as [|c p IH]; intros a.
  { intros _. by destruct (a +:+ b). }
  destruct a as [|d a]; [done|]. rewrite sapp_cons. simpl.
  intros [-> H]%andb_true_iff. by rewrite IH.
Qed.

Section PathForms.
Context (promptsDir : string).

Lemma toRelative_absolute (segs : list string) :
  path_isAbsolute promptsDir = true ->
  segs <> [] ->
  Forall (fun n => plain_name n = true) segs ->
  toRelative promptsDir (path_join promptsDir (join_with "/" segs)) = join_with "/" segs.
Proof.
  intros Habs Hne Hplain. unfold toRelative, path_join.
  unfold path_isAbsolute in *. rewrite startsWith_app by done.
  by apply path_relative_under.
Qed.

Lemma toRelative_relative (segs : list string) :
  Forall (fun n => plain_name n = true) segs ->
  toRelative promptsDir (join_with "/" segs) = join_with "/" segs.
Proof. intros Hplain. unfold toRelative. by rewrite join_with_plain_not_absolute. Qed.

Lemma endsWith_joined (segs : list string) :
  endsWith (join_with "/" segs) ".md" = true ->
  endsWith (path_join promptsDir (join_with "/" segs)) ".md" = true.
Proof. intros H. unfold path_join. by do 2 apply endsWith_app_r. Qed.

End PathForms.

(** * The claims of the specification *)

Section Claims.
Context (promptsDir : string) (matter : string -> outcome GrayMatterFile).

(** C1, as amended.  Resolution returns the root entry named after the
    sanitized name when there is one, and otherwise the first scanned file
    whose extension-stripped path is the requested name or sanitizes to the
    sanitized name ([candidate]).  So: whatever is returned is a file whose
    extension-stripped path sanitizes to the sanitized name; resolution
    succeeds for every name that sanitizes like the extension-stripped path
    of a scanned file (the path itself included); it returns the scanned
    file of that very path when no other scanned file sanitizes alike and
    the root has no other entry of the sanitized name; and it fails when the
    root has no such entry and no scanned file matches in either way.  The
    resolver of src/fileOperations.ts, which has no sanitizer, returns the
    scanned file of the requested path and fails when there is none. *)
Theorem findPromptFile_exact_or_sanitized (r : root_state) (requested : string) :
  wf_root r = true ->
  let sanitizedName := sanitizeFileName requested in
  let direct := sanitizedName +:+ ".md" in
  findPromptFile promptsDir r requested
  = match find_entry direct (root_entries r) with
    | Some _ => Some (path_join promptsDir direct)
    | None => find_map (candidate promptsDir requested sanitizedName)
                (findMarkdownFiles promptsDir r)
    end /\
  (forall filePath,
      findPromptFile promptsDir r requested = Some filePath ->
      exists rel,
        filePath = path_join promptsDir rel /\
        sanitizeFileName (stripMd rel) = sanitizedName /\
        ((rel = direct /\ is_Some (find_entry direct (root_entries r))) \/
         rel ∈ findMarkdownFiles promptsDir r)) /\
  (forall rel,
      rel ∈ findMarkdownFiles promptsDir r ->
      stripMd rel = requested \/ sanitizeFileName (stripMd rel) = sanitizedName ->
      is_Some (findPromptFile promptsDir r requested)) /\
  (forall rel,
      rel ∈ findMarkdownFiles promptsDir r ->
      stripMd rel = requested ->
      (forall rel', rel' ∈ findMarkdownFiles promptsDir r ->
                    sanitizeFileName (stripMd rel') = sanitizedName -> rel' = rel) ->
      find_entry direct (root_entries r) = None \/ rel = direct ->
      findPromptFile promptsDir r requested = Some (path_join promptsDir rel)) /\
  ((forall rel, rel ∈ findMarkdownFiles promptsDir r ->
                stripMd rel <> requested /\
                sanitizeFileName (stripMd rel) <> sanitizedName) ->
   find_entry direct (root_entries r) = None ->
   findPromptFile promptsDir r requested = None) /\
  (forall rel,
      rel ∈ findMarkdownFiles promptsDir r -> stripMd rel = requested ->
      ExactResolver.findPromptFile promptsDir r requested
      = Some (path_join promptsDir rel)) /\
  ((forall rel, rel ∈ findMarkdownFiles promptsDir r -> stripMd rel <> requested) ->
   ExactResolver.findPromptFile promptsDir r requested = None).
Proof.
  intros Hwf sanitizedName direct. subst sanitizedName direct.
  rewrite findPromptFile_unfold by done. split; [done|].
  assert (forall rel, rel ∈ findMarkdownFiles promptsDir r ->
            stripMd rel = requested \/
            sanitizeFileName (stripMd rel) = sanitizeFileName requested ->
            is_Some (find_map (candidate promptsDir requested (sanitizeFileName requested))
                       (findMarkdownFiles promptsDir r))) as Hsome.
  { intros rel Hrel Hmatch.
    destruct (find_map _ _) as [fp|] eqn:E; [by eexists|].
    apply (proj1 (find_map_None _ _)) with (x := rel) in E; [|done].
    apply candidate_None in E. destruct Hmatch as [<-|Hs]; done. }
  split; [|split; [|split; [|split; [|by apply exact_findPromptFile_spec]]]].
  - intros filePath.
    destruct (find_entry _ (root_entries r)) as [e|] eqn:Hdirect.
    + intros [= <-]. eexists. split; [done|].
      rewrite stripMd_app, sanitizeFileName_idem. split; [done|]. left. by split; [|eexists].
    + intros (rel & Hrel & Hcand)%find_map_Some.
      apply candidate_Some in Hcand as [-> Hs]. by exists rel; auto.
  - intros rel Hrel Hmatch. destruct (find_entry _ (root_entries r)); [by eexists|].
    by apply (Hsome rel).
  - intros rel Hrel Hexact Huniq Hdirect.
    destruct (find_entry _ (root_entries r)) as [e|].
    + destruct Hdirect as [?| ->]; done.
    + destruct (Hsome rel Hrel (or_introl Hexact)) as [fp Hfp]. rewrite Hfp.
      apply find_map_Some in Hfp as (rel' & Hrel' & Hcand).
      apply candidate_Some in Hcand as [-> Hs]. by rewrite (Huniq rel' Hrel' Hs).
  - intros Hnone ->. apply find_map_None. intros rel Hrel.
    destruct (Hnone rel Hrel) as [H1 H2]. unfold candidate.
    apply String.eqb_neq in H1, H2. by rewrite H1, H2.
Qed.

(** C2.  For every file the loader loads, the name of the record is the
    root-relative path with the ".md" extension stripped and every "/"
    replaced by "_": for the path made of the directory segments [dirs] and
    the file [base ++ ".md"], the name is the segments [dirs] and [base]
    joined with underscores, a flat name with no separator left. *)
Theorem canonical_name_flattens_path (s : State) (dirs : list string) (base : string)
    (info : PromptInfo) :
  Forall (fun n => contains_char slash n = false) (dirs ++ [base]) ->
  fst (loadPromptMetadata promptsDir matter
         (join_with "/" (dirs ++ [base +:+ ".md"])) s) = Ok (Some info) ->
  name info = flattenSlashes (stripMd (join_with "/" (dirs ++ [base +:+ ".md"]))) /\
  name info = join_with "_" (dirs ++ [base]) /\
  contains_char slash (name info) = false.
Proof.
  intros Hplain Hload%fst_load_result%loadResult_name.
  rewrite Hload. unfold canonicalName.
  split; [done|]. split; [|apply flattenSlashes_no_slash].
  rewrite join_with_last_app, stripMd_app. by apply flattenSlashes_join.
Qed.

(** C3, as amended.  A bulk load run again over the state a first run left,
    with the reads completing in the same order, gives the same outcome and
    the same state as the first run; the map a completed load leaves does
    not depend on what the map held before (nothing of a previous load is
    merged); and when no two files that load give different records of one
    name, a second run gives the same state whatever the completion order
    of its reads.  With two such files the second run may leave another
    map: the record kept is the one of the read that completes last. *)
Theorem initializeCache_idempotent (sched : list nat) (s : State) :
  let once := initializeCache promptsDir matter sched s in
  initializeCache promptsDir matter sched (snd once) = once /\
  (forall c', fst once = Ok tt ->
     cache (snd (initializeCache promptsDir matter sched
                   {| fs := fs s; cache := c' |})) = cache (snd once)) /\
  (forall sched',
     (forall p p' info info',
         p ∈ findMarkdownFiles promptsDir (fs (snd once)) ->
         p' ∈ findMarkdownFiles promptsDir (fs (snd once)) ->
         loadsTo promptsDir matter (fs (snd once)) p info ->
         loadsTo promptsDir matter (fs (snd once)) p' info' ->
         name info = name info' -> info = info') ->
     initializeCache promptsDir matter sched' (snd once) = once).
Proof.
  destruct s as [[creatable|l es] c]; simpl.
  - rewrite initializeCache_absent. destruct creatable; simpl.
    + assert (forall sc, initializeCache promptsDir matter sc
                           {| fs := RootPresent true []; cache := ∅ |}
                         = (Ok tt, {| fs := RootPresent true []; cache := ∅ |})) as Hempty.
      { intros sc. by rewrite initializeCache_present. }
      split; [apply Hempty|]. split; [|by intros sched' _].
      intros c' _. by rewrite initializeCache_absent.
    + rewrite !initializeCache_absent. split; [done|]. split; [done|].
      intros sched' _. by rewrite initializeCache_absent.
  - rewrite !initializeCache_present. simpl.
    split; [by rewrite initializeCache_present|]. split.
    + intros c' _. by rewrite initializeCache_present.
    + intros sched' Huniq. rewrite initializeCache_present. do 2 f_equal.
      unfold loadedIndex. apply foldl_upsert_perm.
      * by rewrite !completionOrder_perm.
      * intros p p' info info' Hp Hp'. apply Huniq; by eapply completionOrder_elem.
Qed.

(** C4.  Two files that flatten to the same name and are loaded one after
    the other through [updateCacheForFile] leave one entry under that name,
    the record of the file loaded last; no error is raised, no other entry
    changes, and a map keyed by name stays so: the records it lists have
    pairwise distinct names. *)
Theorem colliding_names_last_loaded_wins (s : State) (p1 p2 : string)
    (i1 i2 : PromptInfo) :
  endsWith p1 ".md" = true ->
  endsWith p2 ".md" = true ->
  fst (loadPromptMetadata promptsDir matter (toRelative promptsDir p1) s) = Ok (Some i1) ->
  fst (loadPromptMetadata promptsDir matter (toRelative promptsDir p2) s) = Ok (Some i2) ->
  name i1 = name i2 ->
  let after := bind (updateCacheForFile promptsDir matter p1)
                    (fun _ => updateCacheForFile promptsDir matter p2) s in
  fst after = Ok tt /\
  cache (snd after) !! name i2 = Some i2 /\
  dom (cache (snd after)) = {[ name i2 ]} ∪ dom (cache s) /\
  (forall n, n <> name i2 -> cache (snd after) !! n = cache s !! n) /\
  (cache s !! name i2 = None -> size (cache (snd after)) = S (size (cache s))) /\
  (keyed (cache s) ->
   keyed (cache (snd after)) /\ NoDup (name <$> getAllPrompts (snd after))).
Proof.
  intros Hmd1 Hmd2 H1%fst_load_result H2%fst_load_result Hname after.
  assert (after = (Ok tt, {| fs := fs s; cache := <[name i2 := i2]> (cache s) |}))
    as ->.
  { subst after. unfold bind. rewrite !updateCacheForFile_run. simpl.
    rewrite (upsert_loadsTo _ _ _ p1 i1), (upsert_loadsTo _ _ _ p2 i2) by done.
    by rewrite Hname, insert_insert_eq. }
  simpl. split_and!.
  - done.
  - apply lookup_insert_eq.
  - apply dom_insert_L.
  - intros n Hn. by rewrite lookup_insert_ne.
  - intros Hnone. by apply map_size_insert_None.
  - intros Hk.
    assert (keyed (<[name i2 := i2]> (cache s))) as Hk' by by apply map_Forall_insert_2.
    split; [done|].
    by apply (keyed_names_NoDup {| fs := fs s; cache := <[name i2 := i2]> (cache s) |}).
Qed.

(** C5.  [removeFromCache] derives the name from the path alone, by the
    transformation [updateCacheForFile] applies: an absolute path is first
    made relative to the root, then the extension is stripped and "/"
    replaced by "_".  For a document at the segments [segs] below an
    absolute root, addressed by its absolute path [root/rel] or by its
    relative path [rel], the key is [rel] without the extension and
    flattened: the remove deletes that key without looking at the tree,
    it succeeds and changes nothing when the key is absent, an upsert of the
    path stores the record under that key, and after an upsert and a remove
    of the path, in either form, a lookup of the name reports absent.  For
    any path at all the key removed is the key an upsert of that path
    writes. *)
Theorem removeFromCache_mirrors_upsert (s : State) (segs : list string) :
  path_isAbsolute promptsDir = true ->
  segs <> [] ->
  Forall (fun n => plain_name n = true) segs ->
  endsWith (join_with "/" segs) ".md" = true ->
  let rel := join_with "/" segs in
  let abs := path_join promptsDir rel in
  let n := flattenSlashes (stripMd rel) in
  (forall p, p = abs \/ p = rel ->
     (forall r c, removeFromCache promptsDir p {| fs := r; cache := c |}
                  = (Ok tt, {| fs := r; cache := delete n c |})) /\
     (cache s !! n = None -> removeFromCache promptsDir p s = (Ok tt, s)) /\
     (forall info,
        fst (loadPromptMetadata promptsDir matter rel s) = Ok (Some info) ->
        name info = n /\
        getPrompt (snd (updateCacheForFile promptsDir matter p s)) n = Some info) /\
     (forall q, q = abs \/ q = rel ->
        getPrompt (snd (bind (updateCacheForFile promptsDir matter p)
                             (fun _ => removeFromCache promptsDir q) s)) n = None)) /\
  (forall p,
     endsWith p ".md" = true ->
     (forall info,
        fst (loadPromptMetadata promptsDir matter (toRelative promptsDir p) s)
          = Ok (Some info) ->
        getPrompt (snd (updateCacheForFile promptsDir matter p s))
                  (flattenSlashes (stripMd (toRelative promptsDir p))) = Some info) /\
     getPrompt (snd (bind (updateCacheForFile promptsDir matter p)
                          (fun _ => removeFromCache promptsDir p) s))
               (flattenSlashes (stripMd (toRelative promptsDir p))) = None).
Proof.
  intros Habs Hne Hplain Hmd rel abs n.
  assert (forall p, p = abs \/ p = rel ->
                    endsWith p ".md" = true /\ toRelative promptsDir p = rel) as Hform.
  { intros p [->| ->].
    - split; [by apply endsWith_joined|by apply toRelative_absolute].
    - split; [done|by apply toRelative_relative]. }
  split.
  - intros p Hp. destruct (Hform p Hp) as [Hpmd Hprel]. split_and!.
    + intros r c. rewrite removeFromCache_run. simpl. by rewrite Hpmd, Hprel.
    + intros Hnone. rewrite removeFromCache_run, Hpmd, Hprel.
      fold (canonicalName rel). change (canonicalName rel) with n.
      rewrite delete_id by done. by rewrite state_eta.
    + intros info Hload%fst_load_result.
      pose proof (loadResult_name _ _ _ _ _ Hload) as Hname. split; [done|].
      rewrite updateCacheForFile_run. unfold getPrompt. simpl.
      rewrite (upsert_loadsTo _ _ _ p info); [|split; [done|by rewrite Hprel]].
      rewrite Hname. apply lookup_insert_eq.
    + intros q Hq. destruct (Hform q Hq) as [Hqmd Hqrel].
      unfold bind. rewrite updateCacheForFile_run, removeFromCache_run.
      unfold getPrompt. simpl. rewrite Hqmd, Hqrel. apply lookup_delete_eq.
  - intros p Hpmd. fold (canonicalName (toRelative promptsDir p)). split.
    + intros info Hload%fst_load_result.
      pose proof (loadResult_name _ _ _ _ _ Hload) as Hname.
      rewrite updateCacheForFile_run. unfold getPrompt. simpl.
      rewrite (upsert_loadsTo _ _ _ p info) by done.
      rewrite <- Hname. apply lookup_insert_eq.
    + unfold bind. rewrite updateCacheForFile_run, removeFromCache_run.
      unfold getPrompt. simpl. rewrite Hpmd. apply lookup_delete_eq.
Qed.



(** C8.  For every file that loads, whatever the cache held before, the
    record stored by [updateCacheForFile] has the preview computed from the
    body parsed now: its first 100 characters, every newline turned into a
    space, white space trimmed at both ends, followed by "..."; it has at
    most 103 characters, ends with the ellipsis and holds no newline. *)
Theorem preview_recomputed_from_body (s : State) (p text : string)
    (parsed : GrayMatterFile) :
  endsWith p ".md" = true ->
  fs_readFile promptsDir (fs s) (path_join promptsDir (toRelative promptsDir p)) = Ok text ->
  matter text = Ok parsed ->
  exists info,
    fst (loadPromptMetadata promptsDir matter (toRelative promptsDir p) s) = Ok (Some info) /\
    getPrompt (snd (updateCacheForFile promptsDir matter p s)) (name info) = Some info /\
    preview info = previewSpec (content parsed) /\
    String.length (preview info) <= 103 /\
    endsWith (preview info) "..." = true /\
    contains_char newline (preview info) = false.
Proof.
  intros Hmd Hread Hparse.
  assert (loadResult promptsDir matter (fs s) (toRelative promptsDir p)
          = Some {| name := canonicalName (toRelative promptsDir p);
                    metadata := data parsed;
                    preview := makePreview (content parsed) |}) as Hload.
  { unfold loadResult. by rewrite Hread, Hparse. }
  eexists. split; [by apply fst_load_result|].
  rewrite updateCacheForFile_run. unfold getPrompt. simpl.
  rewrite (upsert_loadsTo _ _ _ p _ _ (conj Hmd Hload)). simpl.
  rewrite makePreview_spec.
  split; [apply lookup_insert_eq|]. split; [done|].
  split; [apply previewSpec_length|].
  split; [apply previewSpec_ellipsis|apply previewSpec_one_line].
Qed.

(** C9, as amended.  [readPrompt] fails with the "not found" error when the
    resolver locates no file, and with the same error when the file it
    locates cannot be read; it returns the content exactly when the resolver
    locates a file that can be read.  Every failure carries the one
    message, also in the facade of src/fileOperations.ts. *)
Theorem readPrompt_not_found_on_any_failure (r : root_state) (requested : string) :
  (findPromptFile promptsDir r requested = None ->
   readPrompt promptsDir r requested = Throw (notFound requested)) /\
  (forall filePath,
      findPromptFile promptsDir r requested = Some filePath ->
      readPrompt promptsDir r requested
      = match fs_readFile promptsDir r filePath with
        | Ok text => Ok text
        | Throw _ => Throw (notFound requested)
        end) /\
  (forall e, readPrompt promptsDir r requested = Throw e -> e = notFound requested) /\
  (forall text,
      readPrompt promptsDir r requested = Ok text <->
      exists filePath, findPromptFile promptsDir r requested = Some filePath /\
                       fs_readFile promptsDir r filePath = Ok text) /\
  (forall e, ExactResolver.readPrompt promptsDir r requested = Throw e ->
             e = notFound requested).
Proof.
  assert (forall e, ExactResolver.readPrompt promptsDir r requested = Throw e ->
                    e = notFound requested) as Hexact
    by apply exact_readPrompt_one_message.
  unfold readPrompt.
  destruct (findPromptFile promptsDir r requested) as [filePath|].
  - split; [done|]. split; [by intros ? [= <-]|].
    destruct (fs_readFile promptsDir r filePath) as [text|] eqn:Hread.
    + split; [done|]. split; [|done]. intros text'. split.
      * intros [= <-]. by exists filePath.
      * intros (? & [= <-] & H). congruence.
    + split; [by intros e [= <-]|]. split; [|done]. intros text. split; [done|].
      intros (? & [= <-] & H). congruence.
  - split; [done|]. split; [done|]. split; [by intros e [= <-]|]. split; [|done].
    intros text. split; [done|]. by intros (? & ? & _).
Qed.

(** C10.  For a path that does not end in ".md", [updateCacheForFile] and
    [removeFromCache] both return without touching the state. *)
Theorem non_markdown_paths_ignored (s : State) (p : string) :
  endsWith p ".md" = false ->
  updateCacheForFile promptsDir matter p s = (Ok tt, s) /\
  removeFromCache promptsDir p s = (Ok tt, s).
Proof.
  intros Hmd. rewrite updateCacheForFile_run, removeFromCache_run.
  unfold upsert. rewrite Hmd. by rewrite state_eta.
Qed.

End Claims.

(** * The claims at the example tree *)

Lemma demoTree_wf : wf_root demoTree = true.
Proof. vm_compute. reflexivity. Qed.

Lemma demoTree_scan :
  findMarkdownFiles demoDir demoTree
  = ["code-review.md"; "team/review.md"; "a/b.md"; "a_b.md"; "locked.md"; "broken.md"].
Proof. vm_compute. reflexivity. Qed.

(** The specification's example: [a/b.md] yields the name [a_b]. *)
Lemma canonical_name_flattens_path_witness :
  fst (loadPromptMetadata demoDir demoMatter "a/b.md" demoState)
    = Ok (Some (record "a_b" "nested...")) /\
  name (record "a_b" "nested...") = "a_b".
Proof.
  split; [vm_compute; reflexivity|].
  refine (proj1 (proj2 (canonical_name_flattens_path demoDir demoMatter demoState
                          ["a"] "b" (record "a_b" "nested...") _ _))).
  - repeat constructor.
  - vm_compute. reflexivity.
Defined.

(** [a/b.md] then [a_b.md]: the entry under [a_b] is the record of
    [a_b.md]. *)
Lemma colliding_names_last_loaded_wins_witness :
  getPrompt
    (snd (bind (updateCacheForFile demoDir demoMatter "a/b.md")
               (fun _ => updateCacheForFile demoDir demoMatter "a_b.md") demoState))
    "a_b"
  = Some (record "a_b" "flat...").
Proof.
  refine (proj1 (proj2 (colliding_names_last_loaded_wins demoDir demoMatter demoState
                          "a/b.md" "a_b.md"
                          (record "a_b" "nested...") (record "a_b" "flat...")
                          _ _ _ _ _))); vm_compute; reflexivity.
Defined.

(** The other order leaves the record of [a/b.md]. *)
Lemma colliding_names_other_order :
  getPrompt
    (snd (bind (updateCacheForFile demoDir demoMatter "a_b.md")
               (fun _ => updateCacheForFile demoDir demoMatter "a/b.md") demoState))
    "a_b"
  = Some (record "a_b" "nested...").
Proof. vm_compute. reflexivity. Qed.

(** [team/review.md] under its absolute path, as the watcher delivers it:
    the upsert stores the record under [team_review], the remove takes it
    away again. *)
Lemma removeFromCache_mirrors_upsert_witness :
  getPrompt
    (snd (updateCacheForFile demoDir demoMatter "/srv/prompts/team/review.md" demoState))
    "team_review"
  = Some (record "team_review" "Review this....") /\
  getPrompt
    (snd (bind (updateCacheForFile demoDir demoMatter "/srv/prompts/team/review.md")
               (fun _ => removeFromCache demoDir "/srv/prompts/team/review.md")
               demoState))
    "team_review"
  = None /\
  getPrompt
    (snd (bind (updateCacheForFile demoDir demoMatter "/srv/prompts/team/review.md")
               (fun _ => removeFromCache demoDir "team/review.md")
               demoState))
    "team_review"
  = None.
Proof.
  assert (Forall (fun n => plain_name n = true) ["team"; "review.md"]) as Hplain
    by (repeat constructor).
  destruct (removeFromCache_mirrors_upsert demoDir demoMatter demoState ["team"; "review.md"]
              eq_refl ltac:(done) Hplain eq_refl) as [Hboth _].
  destruct (Hboth "/srv/prompts/team/review.md" (or_introl eq_refl))
    as (_ & _ & Hstored & Hgone).
  split.
  - refine (proj2 (Hstored (record "team_review" "Review this....") _)).
    vm_compute. reflexivity.
  - split.
    + exact (Hgone "/srv/prompts/team/review.md" (or_introl eq_refl)).
    + exact (Hgone "team/review.md" (or_intror eq_refl)).
Defined.

Lemma preview_recomputed_from_body_witness :
  exists info,
    getPrompt (snd (updateCacheForFile demoDir demoMatter "code-review.md" demoState))
      "code-review" = Some info /\
    preview info = "You are an experienced engineer....".
Proof.
  destruct (preview_recomputed_from_body demoDir demoMatter demoState "code-review.md"
              "You are an experienced engineer."
              {| data := ∅; content := "You are an experienced engineer." |}
              eq_refl eq_refl eq_refl)
    as (info & Hload & Hget & Hpreview & _).
  exists info. apply fst_load_result in Hload. vm_compute in Hload.
  injection Hload as <-. split; [exact Hget|exact Hpreview].
Defined.

Lemma non_markdown_paths_ignored_witness :
  updateCacheForFile demoDir demoMatter "notes.txt" demoState = (Ok tt, demoState) /\
  removeFromCache demoDir "notes.txt" demoState = (Ok tt, demoState).
Proof. apply non_markdown_paths_ignored. vm_compute. reflexivity. Defined.



(** C3, counterexample.  [a/b.md] and [a_b.md] both load and flatten to
    [a_b]: a first load whose reads complete in the order of the scan keeps
    the record of [a_b.md]; a second load over the same tree whose read of
    [a/b.md] completes last keeps the record of [a/b.md], so the two runs
    leave different maps. *)
Lemma initializeCache_second_run_differs_on_collision :
  fs (snd (initializeCache demoDir demoMatter [] demoState)) = demoTree /\
  fs (snd (initializeCache demoDir demoMatter [0; 0; 1]
             (snd (initializeCache demoDir demoMatter [] demoState)))) = demoTree /\
  getPrompt (snd (initializeCache demoDir demoMatter [] demoState)) "a_b"
  = Some (record "a_b" "flat...") /\
  getPrompt (snd (initializeCache demoDir demoMatter [0; 0; 1]
                    (snd (initializeCache demoDir demoMatter [] demoState)))) "a_b"
  = Some (record "a_b" "nested...") /\
  cache (snd (initializeCache demoDir demoMatter [0; 0; 1]
                (snd (initializeCache demoDir demoMatter [] demoState))))
  <> cache (snd (initializeCache demoDir demoMatter [] demoState)).
Proof.
  split; [vm_compute; reflexivity|]. split; [vm_compute; reflexivity|].
  split; [vm_compute; reflexivity|]. split; [vm_compute; reflexivity|].
  intros Heq.
  assert (cache (snd (initializeCache demoDir demoMatter [0; 0; 1]
                        (snd (initializeCache demoDir demoMatter [] demoState)))) !! "a_b"
          = cache (snd (initializeCache demoDir demoMatter [] demoState)) !! "a_b") as H
    by (by rewrite Heq).
  vm_compute in H. discriminate H.
Qed.


(** The specification's examples: [TEAM/REVIEW] resolves through the
    sanitized form, [team/review] to the file of that path, and
    [team/missing] fails. *)
Lemma findPromptFile_exact_or_sanitized_witness :
  is_Some (findPromptFile demoDir demoTree "TEAM/REVIEW") /\
  findPromptFile demoDir demoTree "team/review" = Some "/srv/prompts/team/review.md" /\
  findPromptFile demoDir demoTree "team/missing" = None.
Proof.
  split; [|split].
  - refine (proj1 (proj2 (proj2 (findPromptFile_exact_or_sanitized demoDir demoTree
                                   "TEAM/REVIEW" demoTree_wf))) "team/review.md" _ _).
    + rewrite demoTree_scan. set_solver.
    + right. vm_compute. reflexivity.
  - refine (proj1 (proj2 (proj2 (proj2 (findPromptFile_exact_or_sanitized demoDir
                                          demoTree "team/review" demoTree_wf))))
              "team/review.md" _ _ _ _).
    + rewrite demoTree_scan. set_solver.
    + vm_compute. reflexivity.
    + rewrite demoTree_scan. intros rel' Hin Hs.
      repeat (apply elem_of_cons in Hin as [->|Hin]);
        try reflexivity; try (vm_compute in Hs; discriminate Hs).
      by apply elem_of_nil in Hin.
    + left. vm_compute. reflexivity.
  - refine (proj1 (proj2 (proj2 (proj2 (proj2 (findPromptFile_exact_or_sanitized demoDir
                                          demoTree "team/missing" demoTree_wf))))) _ _).
    + rewrite demoTree_scan. intros rel Hin.
      repeat (apply elem_of_cons in Hin as [->|Hin]);
        try (split; vm_compute; discriminate).
      by apply elem_of_nil in Hin.
    + vm_compute. reflexivity.
Defined.

(** C1, counterexample.  [a/b.md] is stored, scanned and readable, but the
    name [a/b] resolves to the root file [a_b.md], the direct candidate of
    its sanitized form.  In the resolver of src/fileOperations.ts the name
    [TEAM/REVIEW], which sanitizes like [team/review], resolves to nothing. *)
Lemma findPromptFile_prefers_sanitized_root_file :
  "a/b.md" ∈ findMarkdownFiles demoDir demoTree /\
  endsWith "a/b.md" ".md" = true /\
  fs_readFile demoDir demoTree (path_join demoDir "a/b.md") = Ok "nested" /\
  stripMd "a/b.md" = "a/b" /\
  findPromptFile demoDir demoTree "a/b" = Some "/srv/prompts/a_b.md" /\
  findPromptFile demoDir demoTree "a/b" <> Some (path_join demoDir "a/b.md") /\
  sanitizeFileName "TEAM/REVIEW" = sanitizeFileName (stripMd "team/review.md") /\
  ExactResolver.findPromptFile demoDir demoTree "TEAM/REVIEW" = None.
Proof.
  split; [rewrite demoTree_scan; set_solver|].
  split_and!; try (vm_compute; reflexivity).
  vm_compute. discriminate.
Qed.

(** Within the walk an earlier file that only sanitizes alike is returned
    before a later file of the exact path. *)
Lemma findPromptFile_earlier_sanitized_match :
  "docs/readme.md" ∈ findMarkdownFiles demoDir caseTree /\
  findPromptFile demoDir caseTree "docs/readme" = Some "/srv/prompts/docs/Readme.md".
Proof. split; [vm_compute; set_solver|vm_compute; reflexivity]. Qed.

(** A stored file below a hidden directory is not resolved. *)
Lemma findPromptFile_hidden_unresolved :
  fs_readFile demoDir demoTree (path_join demoDir ".hidden/x.md") = Ok "secret" /\
  findPromptFile demoDir demoTree ".hidden/x" = None.
Proof. split; vm_compute; reflexivity. Qed.

(** C9, counterexample.  [locked.md] is located by the resolver and cannot
    be read: [readPrompt] reports "not found", the very error it reports
    for the same name over a tree without the file. *)
Lemma readPrompt_unreadable_file_reports_not_found :
  findPromptFile demoDir demoTree "locked" = Some "/srv/prompts/locked.md" /\
  readPrompt demoDir demoTree "locked" = Throw (notFound "locked") /\
  findPromptFile demoDir (RootPresent true []) "locked" = None /\
  readPrompt demoDir (RootPresent true []) "locked" = readPrompt demoDir demoTree "locked" /\
  ExactResolver.findPromptFile demoDir demoTree "locked" = Some "/srv/prompts/locked.md" /\
  ExactResolver.readPrompt demoDir demoTree "locked" = Throw (notFound "locked").
Proof. repeat split; vm_compute; reflexivity. Qed.

(** The resolver of src/fileOperations.ts has no sanitized phase: the exact
    name resolves, the upper-case name does not. *)
Lemma exact_resolver_has_no_fallback :
  ExactResolver.findPromptFile demoDir demoTree "team/review"
    = Some "/srv/prompts/team/review.md" /\
  ExactResolver.findPromptFile demoDir demoTree "a/b" = Some "/srv/prompts/a/b.md" /\
  ExactResolver.findPromptFile demoDir demoTree "TEAM/REVIEW" = None /\
  ExactResolver.findPromptFile demoDir demoTree ".hidden/x" = None /\
  ExactResolver.readPrompt demoDir demoTree "locked" = Throw (notFound "locked").
Proof. repeat split; vm_compute; reflexivity. Qed.

(** * Further properties of the code *)

(** ** The sanitizer *)

Lemma sanitize_char_file_char (c : ascii) : is_file_char (sanitize_char c) = true.
Proof. destruct c as [[] [] [] [] [] [] [] []]; vm_compute; reflexivity. Qed.

Lemma sanitize_char_fixed (c : ascii) :
  Ascii.eqb (sanitize_char c) c = is_file_char c.
Proof. destruct c as [[] [] [] [] [] [] [] []]; vm_compute; reflexivity. Qed.

(** X1.  [sanitizeFileName] keeps the length of a name and produces only
    lower-case letters, digits, "-" and "_"; the names it leaves unchanged
    are exactly the names made of these characters. *)
Theorem sanitizeFileName_safe_output (s : string) :
  all_chars is_file_char (sanitizeFileName s) = true /\
  String.length (sanitizeFileName s) = String.length s /\
  (sanitizeFileName s = s <-> all_chars is_file_char s = true).
Proof.
  rewrite sanitizeFileName_chars. split_and!.
  - induction s as [|c s IH]; [done|]. simpl. by rewrite sanitize_char_file_char, IH.
  - induction s as [|c s IH]; [done|]. simpl. by rewrite IH.
  - induction s as [|c s IH]; [done|]. simpl. rewrite andb_true_iff, <- IH.
    rewrite <- sanitize_char_fixed. split.
    + intros [= Hc Hs]. split; [|done]. rewrite Hc. apply Ascii.eqb_refl.
    + intros [Hc ->]. by apply Ascii.eqb_eq in Hc as ->.
Qed.

(** ** Saving and deleting through the facade *)

Lemma put_file_find (n text : string) (es es' : list entry) :
  put_file n text es = Ok es' ->
  find_entry n es' = Some (File n (Some text)) /\
  (forall m, m <> n -> find_entry m es' = find_entry m es) /\
  (find_entry n es = None \/ exists old, find_entry n es = Some (File n (Some old))).
Proof.
  revert es'. induction es as [|e es IH]; intros es'; simpl.
  - intros [= <-]. simpl. rewrite String.eqb_refl. split; [done|]. split; [|by left].
    intros m Hm. destruct (String.eqb_spec n m); [congruence|done].
  - destruct (String.eqb_spec (entry_name e) n) as [E|Hne].
    + destruct e as [k [old|]| |]; try done. simpl in E. subst k.
      intros [= <-]. simpl. rewrite String.eqb_refl. split; [done|]. split; [|right; by eexists].
      intros m Hm. destruct (String.eqb_spec n m); [congruence|done].
    + destruct (put_file n text es) as [es''|] eqn:Hput; [|done].
      intros [= <-]. destruct (IH es'' eq_refl) as (H1 & H2 & H3). simpl.
      apply String.eqb_neq in Hne. rewrite Hne. split; [done|]. split; [|done].
      intros m Hm. destruct (String.eqb (entry_name e) m); [done|]. by apply H2.
Qed.

(** Writing one file changes what is found along its own path only. *)
Lemma put_file_node_at (n text : string) (es es' : list entry) (segs : list string) :
  put_file n text es = Ok es' -> segs <> [n] -> node_at segs es' = node_at segs es.
Proof.
  intros (Hnew & Hother & Hold)%put_file_find Hsegs.
  destruct segs as [|m below]; [done|].
  destruct (decide (m = n)) as [->|Hm].
  - destruct below as [|b below]; [done|].
    change (node_at (n :: b :: below) es')
      with (match find_entry n es' with
            | Some (Dir _ _ children) => node_at (b :: below) children
            | _ => None
            end).
    change (node_at (n :: b :: below) es)
      with (match find_entry n es with
            | Some (Dir _ _ children) => node_at (b :: below) children
            | _ => None
            end).
    rewrite Hnew. by destruct Hold as [->|[old ->]].
  - destruct below as [|b below]; simpl; by rewrite (Hother m Hm).
Qed.

Lemma put_file_new (n text : string) (es : list entry) :
  find_entry n es = None -> put_file n text es = Ok (es ++ [File n (Some text)]).
Proof.
  induction es as [|e es IH]; [done|]. simpl.
  destruct (String.eqb (entry_name e) n); [done|]. intros H. by rewrite IH.
Qed.


Lemma drop_file_find (n : string) (es es' : list entry) :
  drop_file n es = Ok es' ->
  is_Some (find_entry n es) /\
  (forall m, m <> n -> find_entry m es' = find_entry m es) /\
  (names_distinct (map entry_name es) = true -> find_entry n es' = None).
Proof.
  revert es'. induction es as [|e es IH]; intros es'; simpl; [done|].
  destruct (String.eqb_spec (entry_name e) n) as [E|Hne].
  - intros Hdrop. assert (es' = es) as -> by (destruct e; congruence).
    split; [by eexists|]. split.
    + intros m Hm. destruct (String.eqb_spec (entry_name e) m); [congruence|done].
    + intros [Hfresh _]%andb_true_iff. apply negb_true_iff in Hfresh.
      destruct (find_entry n es) as [x|] eqn:Hx; [|done].
      apply find_entry_Some in Hx as [Hin Hname].
      assert (existsb (String.eqb (entry_name e)) (map entry_name es) = true) as Hex;
        [|congruence].
      apply existsb_exists. exists (entry_name x). split.
      * apply in_map. by apply list_elem_of_In.
      * rewrite E, Hname. apply String.eqb_refl.
  - destruct (drop_file n es) as [es''|] eqn:Hdrop; [|done].
    intros [= <-]. destruct (IH es'' eq_refl) as (H1 & H2 & H3).
    split; [done|]. split.
    + intros m Hm. simpl. destruct (String.eqb (entry_name e) m); [done|]. by apply H2.
    + intros [_ Hd]%andb_true_iff. simpl. apply String.eqb_neq in Hne. rewrite Hne. auto.
Qed.

Lemma drop_file_missing (n : string) (es : list entry) :
  find_entry n es = None -> drop_file n es = Throw "ENOENT".
Proof.
  induction es as [|e es IH]; [done|]. simpl.
  destruct (String.eqb (entry_name e) n); [done|]. intros H. by rewrite IH.
Qed.

Lemma drop_file_appended (n : string) (x : entry) (es : list entry) :
  find_entry n es = None -> entry_name x = n ->
  (forall d l c, x <> Dir d l c) ->
  drop_file n (es ++ [x]) = Ok es.
Proof.
  intros Hnone Hx Hfile. induction es as [|e es IH]; simpl in *.
  - rewrite Hx, String.eqb_refl. destruct x as [| d l c |]; try done.
    by destruct (Hfile d l c).
  - destruct (String.eqb (entry_name e) n); [done|]. by rewrite IH.
Qed.

Section FacadeFacts.
Context (promptsDir : string).

Lemma locate_target (requested : string) :
  locate promptsDir (path_join promptsDir (sanitizeFileName requested +:+ ".md"))
  = Some [sanitizeFileName requested +:+ ".md"].
Proof.
  pose proof (locate_under promptsDir [sanitizeFileName requested +:+ ".md"]) as H.
  simpl in H. apply H; [done|]. repeat constructor. apply sanitized_target_plain.
Qed.

(** What [savePrompt] does, case by case. *)
Lemma savePrompt_run (requested text : string) (s : State) :
  savePrompt promptsDir requested text s
  = let f := sanitizeFileName requested +:+ ".md" in
    match fs s with
    | RootPresent l es =>
        match put_file f text es with
        | Ok es' => (Ok f, {| fs := RootPresent l es'; cache := cache s |})
        | Throw m => (Throw m, s)
        end
    | RootAbsent true =>
        (Ok f, {| fs := RootPresent true [File f (Some text)]; cache := cache s |})
    | RootAbsent false => (Throw "EACCES", s)
    end.
Proof.
  destruct s as [[[]|l es] c]; unfold savePrompt, bind at 1.
  - rewrite (ensurePromptsDir_absent promptsDir true c).
    unfold bind, fs_writeFile. by rewrite locate_target.
  - by rewrite (ensurePromptsDir_absent promptsDir false c).
  - rewrite ensurePromptsDir_present.
    unfold bind, fs_writeFile. rewrite locate_target. simpl.
    by destruct (put_file _ text es).
Qed.

Lemma deletePrompt_run (requested : string) (s : State) :
  deletePrompt promptsDir requested s
  = match fs s with
    | RootPresent l es =>
        match drop_file (sanitizeFileName requested +:+ ".md") es with
        | Ok es' => (Ok true, {| fs := RootPresent l es'; cache := cache s |})
        | Throw _ => (Throw (notFound requested), s)
        end
    | RootAbsent _ => (Throw (notFound requested), s)
    end.
Proof.
  unfold deletePrompt, try_catch, bind, fs_unlink, lift. rewrite locate_target.
  destruct (fs s) as [creatable|l es]; [done|]. simpl.
  by destruct (drop_file _ es).
Qed.

Lemma promptExists_run (requested : string) (s : State) :
  promptExists promptsDir requested s
  = (Ok (bool_decide (is_Some (find_entry (sanitizeFileName requested +:+ ".md")
                                 (root_entries (fs s))))), s).
Proof.
  unfold promptExists, try_catch, bind. rewrite direct_access.
  destruct (find_entry _ _) as [e|].
  - unfold ret. by rewrite bool_decide_eq_true_2 by by eexists.
  - unfold ret. rewrite bool_decide_eq_false_2; [done|]. by intros [? ?].
Qed.

Lemma savePrompt_cache (requested text : string) (s : State) :
  cache (snd (savePrompt promptsDir requested text s)) = cache s.
Proof.
  rewrite savePrompt_run. simpl.
  destruct (fs s) as [[]|l es]; try done. by destruct (put_file _ text es).
Qed.

Lemma deletePrompt_cache (requested : string) (s : State) :
  cache (snd (deletePrompt promptsDir requested s)) = cache s.
Proof.
  rewrite deletePrompt_run.
  destruct (fs s) as [?|l es]; try done. by destruct (drop_file _ es).
Qed.

(** A save that returns leaves the root present with the saved file in
    it. *)
Lemma savePrompt_Ok (requested text f : string) (s s' : State) :
  savePrompt promptsDir requested text s = (Ok f, s') ->
  f = sanitizeFileName requested +:+ ".md" /\
  cache s' = cache s /\
  exists l es',
    fs s' = RootPresent l es' /\
    put_file f text (root_entries (fs s)) = Ok es' /\
    l = match fs s with RootPresent l0 _ => l0 | RootAbsent _ => true end.
Proof.
  rewrite savePrompt_run. simpl.
  destruct (fs s) as [[]|l es] eqn:Hfs.
  - intros [= <- <-]. simpl. split; [done|]. split; [done|]. by exists true, [File (sanitizeFileName requested +:+ ".md") (Some text)].
  - done.
  - destruct (put_file _ text es) as [es'|] eqn:Hput; [|done].
    intros [= <- <-]. simpl. split; [done|]. split; [done|]. by exists l, es'.
Qed.

End FacadeFacts.


Lemma put_file_Throw (n text m : string) (es : list entry) :
  put_file n text es = Throw m ->
  exists e, find_entry n es = Some e /\ forall old, e <> File n (Some old).
Proof.
  induction es as [|e es IH]; [done|]. simpl.
  destruct (String.eqb_spec (entry_name e) n) as [E|Hne].
  - intros H. exists e. split; [done|]. intros old ->. done.
  - destruct (put_file n text es); [done|]. intros [= <-]. by apply IH.
Qed.

Section FacadeProperties.
Context (promptsDir : string).


(** X2.  A save that returns writes the file [<sanitized name>.md] directly
    in the root, whatever the name (no name leads out of the root or into a
    subdirectory), and changes nothing else: not the cache, and no other
    place of the tree.  [savePromptWithFilename] does the same. *)
Theorem savePrompt_changes_one_root_file (requested text f : string) (s s' : State) :
  savePrompt promptsDir requested text s = (Ok f, s') ->
  f = sanitizeFileName requested +:+ ".md" /\
  plain_name f = true /\
  locate promptsDir (path_join promptsDir f) = Some [f] /\
  cache s' = cache s /\
  root_present (fs s') = true /\
  node_at [f] (root_entries (fs s')) = Some (File f (Some text)) /\
  (forall segs, segs <> [f] ->
                node_at segs (root_entries (fs s')) = node_at segs (root_entries (fs s))) /\
  savePromptWithFilename promptsDir requested text s = (Ok f, s').
Proof.
  intros Hsave. pose proof Hsave as (-> & Hcache & l & es' & Hfs & Hput & _)%savePrompt_Ok.
  rewrite Hfs. simpl. split_and!; try done.
  - apply sanitized_target_plain.
  - apply locate_target.
  - by apply put_file_find in Hput as (? & _).
  - intros segs Hsegs. exact (put_file_node_at _ _ _ _ segs Hput Hsegs).
Qed.

(** X3.  What [savePrompt] refuses and what it leaves alone: it throws,
    leaving the state as it was, when the root is missing and cannot be
    created, and when the root holds a directory under the target name (a
    directory is never written over); whether it returns or throws, it
    leaves the cache as it was and every root entry of another name as it
    was. *)
Theorem savePrompt_refusals (requested text : string) (s : State) :
  (fs s = RootAbsent false ->
   is_ok (fst (savePrompt promptsDir requested text s)) = false /\
   snd (savePrompt promptsDir requested text s) = s) /\
  (forall d l c,
     find_entry (sanitizeFileName requested +:+ ".md") (root_entries (fs s))
     = Some (Dir d l c) ->
     is_ok (fst (savePrompt promptsDir requested text s)) = false /\
     snd (savePrompt promptsDir requested text s) = s) /\
  cache (snd (savePrompt promptsDir requested text s)) = cache s /\
  (forall m, m <> sanitizeFileName requested +:+ ".md" ->
     find_entry m (root_entries (fs (snd (savePrompt promptsDir requested text s))))
     = find_entry m (root_entries (fs s))).
Proof.
  rewrite savePrompt_run. simpl.
  destruct (fs s) as [[]|l es] eqn:Hfs; simpl.
  - split_and!; try done. intros m Hm.
    destruct (String.eqb_spec (sanitizeFileName requested +:+ ".md") m); [congruence|done].
  - by rewrite Hfs.
  - destruct (put_file _ text es) as [es'|e] eqn:Hput; simpl.
    + apply put_file_find in Hput as (_ & Hother & Hold). split_and!; try done.
      intros d l0 c Hdir. destruct Hold as [Hnone|[old Hfile]]; congruence.
    + by rewrite Hfs.
Qed.



(** X6.  A delete that returns answers true and removes the root file of
    the sanitized name only, leaving the cache alone; afterwards
    [promptExists] answers false and a second delete throws "not found". *)
Theorem deletePrompt_removes_root_file (requested : string) (b : bool) (s s' : State) :
  wf_root (fs s) = true ->
  deletePrompt promptsDir requested s = (Ok b, s') ->
  b = true /\
  cache s' = cache s /\
  (forall m, m <> sanitizeFileName requested +:+ ".md" ->
             find_entry m (root_entries (fs s')) = find_entry m (root_entries (fs s))) /\
  promptExists promptsDir requested s' = (Ok false, s') /\
  deletePrompt promptsDir requested s' = (Throw (notFound requested), s').
Proof.
  intros Hwf. rewrite deletePrompt_run.
  destruct (fs s) as [?|l es] eqn:Hfs; [done|].
  destruct (drop_file _ es) as [es'|] eqn:Hdrop; [|done].
  intros [= <- <-]. apply drop_file_find in Hdrop as (_ & Hother & Hgone).
  assert (find_entry (sanitizeFileName requested +:+ ".md") es' = None) as Hnone.
  { apply Hgone. unfold wf_root, wf_entries in Hwf. simpl in Hwf.
    by apply andb_true_iff in Hwf as [_ ?]. }
  simpl. split_and!; try done.
  - rewrite promptExists_run. simpl. rewrite Hnone.
    rewrite bool_decide_eq_false_2; [done|]. by intros [? ?].
  - rewrite deletePrompt_run. simpl. by rewrite (drop_file_missing _ _ Hnone).
Qed.

(** X7.  [promptExists] and [deletePrompt] look at the root only: for a
    prompt that [findPromptFile] resolves through the walk (the root has no
    entry of the sanitized name), [promptExists] answers false and
    [deletePrompt] throws "not found", changing nothing. *)
Theorem flat_operations_miss_walked_prompts (requested rel : string) (s : State) :
  wf_root (fs s) = true ->
  rel ∈ findMarkdownFiles promptsDir (fs s) ->
  stripMd rel = requested ->
  find_entry (sanitizeFileName requested +:+ ".md") (root_entries (fs s)) = None ->
  is_Some (findPromptFile promptsDir (fs s) requested) /\
  promptExists promptsDir requested s = (Ok false, s) /\
  deletePrompt promptsDir requested s = (Throw (notFound requested), s).
Proof.
  intros Hwf Hrel Hexact Hnone. split_and!.
  - rewrite findPromptFile_unfold, Hnone by done.
    destruct (find_map _ _) as [fp|] eqn:E; [by eexists|].
    apply (proj1 (find_map_None _ _)) with (x := rel) in E; [|done].
    apply candidate_None in E. by rewrite Hexact in E.
  - rewrite promptExists_run, Hnone.
    rewrite bool_decide_eq_false_2; [done|]. by intros [? ?].
  - rewrite deletePrompt_run. destruct (fs s) as [?|l es]; [done|].
    simpl in Hnone. by rewrite (drop_file_missing _ _ Hnone).
Qed.

(** X8.  When a save under a name whose target the present root does not
    have returns, a delete of the name right after it returns true and
    gives back the state before the save. *)
Theorem save_then_delete_restores (requested text f : string) (s s1 : State) :
  root_present (fs s) = true ->
  find_entry (sanitizeFileName requested +:+ ".md") (root_entries (fs s)) = None ->
  savePrompt promptsDir requested text s = (Ok f, s1) ->
  deletePrompt promptsDir requested s1 = (Ok true, s).
Proof.
  destruct s as [[?|l es] c]; [done|]. simpl. intros _ Hnone.
  rewrite savePrompt_run. simpl. rewrite (put_file_new _ _ _ Hnone).
  intros [= <- <-]. rewrite deletePrompt_run. simpl. by rewrite drop_file_appended.
Qed.

End FacadeProperties.

(** ** Watcher events and the index *)

Section EventFacts.
Context (promptsDir : string) (matter : string -> outcome GrayMatterFile).

Lemma indexInvariant_upsert (r : root_state) (p : string) (c : gmap string PromptInfo) :
  indexInvariant c -> indexInvariant (upsert promptsDir matter r p c).
Proof.
  intros Hc. unfold upsert. destruct (endsWith p ".md"); [|done].
  destruct (loadResult _ _ _ _) as [info|] eqn:Hload; [|done].
  apply map_Forall_insert_2; [|done].
  pose proof (loadResult_name _ _ _ _ _ Hload) as Hname.
  split; [done|]. split.
  - rewrite Hname. apply flattenSlashes_no_slash.
  - unfold loadResult in Hload.
    destruct (fs_readFile _ _ _) as [text|]; [|done].
    destruct (matter text) as [parsed|]; [|done].
    injection Hload as <-. simpl. rewrite makePreview_spec. apply previewSpec_ellipsis.
Qed.

Lemma indexInvariant_foldl (r : root_state) (files : list string)
    (c : gmap string PromptInfo) :
  indexInvariant c ->
  indexInvariant (foldl (fun c p => upsert promptsDir matter r p c) c files).
Proof.
  revert c. induction files as [|p files IH]; intros c Hc; [done|].
  simpl. apply IH. by apply indexInvariant_upsert.
Qed.

Lemma indexInvariant_keyed (c : gmap string PromptInfo) : indexInvariant c -> keyed c.
Proof. intros H k info Hk. by destruct (H k info Hk). Qed.

Lemma indexInvariant_deliver (ev : watchEvent) (s : State) :
  indexInvariant (cache s) -> indexInvariant (cache (snd (deliver promptsDir matter ev s))).
Proof.
  intros Hc. destruct ev as [p|p|p|m]; simpl.
  - rewrite updateCacheForFile_run. by apply indexInvariant_upsert.
  - rewrite updateCacheForFile_run. by apply indexInvariant_upsert.
  - rewrite removeFromCache_run. simpl.
    destruct (endsWith p ".md"); [|done]. by apply map_Forall_delete.
  - done.
Qed.

Lemma indexInvariant_bulk (sched : list nat) (s : State) :
  indexInvariant (cache s) ->
  indexInvariant (cache (snd (initializeCache promptsDir matter sched s))).
Proof.
  intros Hc. destruct s as [[creatable|l es] c].
  - rewrite initializeCache_absent. destruct creatable; [|done].
    simpl. apply map_Forall_empty.
  - rewrite initializeCache_present. simpl. apply indexInvariant_foldl, map_Forall_empty.
Qed.

Lemma indexInvariant_perform (op : operation) (s : State) :
  indexInvariant (cache s) -> indexInvariant (cache (perform promptsDir matter op s)).
Proof.
  intros Hc. destruct op as [ev|sched|requested text|requested]; simpl.
  - by apply indexInvariant_deliver.
  - by apply indexInvariant_bulk.
  - by rewrite savePrompt_cache.
  - by rewrite deletePrompt_cache.
Qed.

Lemma indexInvariant_history (ops : list operation) (s : State) :
  indexInvariant (cache s) -> indexInvariant (cache (history promptsDir matter ops s)).
Proof.
  revert s. induction ops as [|op ops IH]; intros s Hc; [done|].
  simpl. apply IH. by apply indexInvariant_perform.
Qed.

(** X9.  The absolute path the watcher delivers and the root-relative path
    the scanner lists name the same entry of the index: for a document
    below an absolute root, each handler of the watcher does what the
    cache method does on the relative path. *)
Theorem watcher_paths_agree (segs : list string) (s : State) :
  path_isAbsolute promptsDir = true ->
  segs <> [] ->
  Forall (fun n => plain_name n = true) segs ->
  endsWith (join_with "/" segs) ".md" = true ->
  deliver promptsDir matter (EvAdd (path_join promptsDir (join_with "/" segs))) s
  = updateCacheForFile promptsDir matter (join_with "/" segs) s /\
  deliver promptsDir matter (EvChange (path_join promptsDir (join_with "/" segs))) s
  = updateCacheForFile promptsDir matter (join_with "/" segs) s /\
  deliver promptsDir matter (EvUnlink (path_join promptsDir (join_with "/" segs))) s
  = removeFromCache promptsDir (join_with "/" segs) s.
Proof.
  intros Habs Hne Hplain Hmd. simpl.
  rewrite !updateCacheForFile_run, !removeFromCache_run. unfold upsert.
  rewrite (endsWith_joined _ _ Hmd), Hmd.
  by rewrite toRelative_absolute, toRelative_relative.
Qed.

(** X10.  An event of the watcher never throws and never changes the tree;
    an add, change or unlink event changes at most the entry of the index
    stored under the canonical name of its path, and an error event changes
    nothing. *)
Theorem deliver_touches_one_entry (ev : watchEvent) (s : State) :
  fst (deliver promptsDir matter ev s) = Ok tt /\
  fs (snd (deliver promptsDir matter ev s)) = fs s /\
  match ev with
  | EvAdd p | EvChange p | EvUnlink p =>
      forall n, n <> canonicalName (toRelative promptsDir p) ->
                cache (snd (deliver promptsDir matter ev s)) !! n = cache s !! n
  | EvError _ => snd (deliver promptsDir matter ev s) = s
  end.
Proof.
  assert (forall p n, n <> canonicalName (toRelative promptsDir p) ->
                      upsert promptsDir matter (fs s) p (cache s) !! n = cache s !! n) as Hup.
  { intros p n Hn. unfold upsert. destruct (endsWith p ".md"); [|done].
    destruct (loadResult _ _ _ _) as [info|] eqn:Hload; [|done].
    apply loadResult_name in Hload. rewrite lookup_insert_ne; congruence. }
  destruct ev as [p|p|p|m]; simpl.
  - rewrite updateCacheForFile_run. simpl. auto.
  - rewrite updateCacheForFile_run. simpl. auto.
  - rewrite removeFromCache_run. simpl. split; [done|]. split; [done|].
    intros n Hn. destruct (endsWith p ".md"); [|done]. by rewrite lookup_delete_ne.
  - done.
Qed.

(** X11.  Whatever happens to a server (events of the watcher, bulk loads,
    saves and deletes, in any order and whether they return or throw), every
    record of the index stays stored under its own name, a name without
    "/", with a preview that ends in the ellipsis; so the names of a listing
    are pairwise distinct. *)
Theorem history_keeps_index_invariant (ops : list operation) (s : State) :
  indexInvariant (cache s) ->
  indexInvariant (cache (history promptsDir matter ops s)) /\
  NoDup (name <$> getAllPrompts (history promptsDir matter ops s)).
Proof.
  intros Hc. pose proof (indexInvariant_history ops s Hc) as Hinv.
  split; [done|]. by apply keyed_names_NoDup, indexInvariant_keyed.
Qed.

End EventFacts.

(** ** The index against the tree *)


Lemma canonicalName_target (s : string) :
  canonicalName (sanitizeFileName s +:+ ".md") = sanitizeFileName s.
Proof.
  unfold canonicalName. rewrite stripMd_app.
  apply flattenSlashes_plain, sanitizeFileName_no_slash.
Qed.




Lemma drop_file_keeps (n : string) (es es' : list entry) :
  drop_file n es = Ok es' ->
  (forallb wf_entry es = true -> forallb wf_entry es' = true) /\
  (forall m, existsb (String.eqb m) (map entry_name es') = true ->
             existsb (String.eqb m) (map entry_name es) = true) /\
  (names_distinct (map entry_name es) = true ->
   names_distinct (map entry_name es') = true).
Proof.
  revert es'. induction es as [|e es IH]; intros es'; simpl; [done|].
  destruct (String.eqb (entry_name e) n).
  - intros Hdrop. assert (es' = es) as -> by (destruct e; congruence).
    split_and!.
    + by intros [_ ?]%andb_true_iff.
    + intros m ->. apply orb_true_r.
    + by intros [_ ?]%andb_true_iff.
  - destruct (drop_file n es) as [es''|] eqn:Hdrop; [|done].
    intros [= <-]. destruct (IH es'' eq_refl) as (H1 & H2 & H3). simpl. split_and!.
    + intros [-> ?]%andb_true_iff. simpl. auto.
    + intros m [->|Hm]%orb_true_iff; [done|]. rewrite (H2 m Hm). apply orb_true_r.
    + intros [Hfresh Hd]%andb_true_iff. rewrite (H3 Hd), andb_true_r.
      apply negb_true_iff in Hfresh. apply negb_true_iff.
      destruct (existsb _ (map entry_name es'')) eqn:Hex; [|done].
      apply H2 in Hex. congruence.
Qed.

Lemma drop_file_wf (n : string) (es es' : list entry) :
  drop_file n es = Ok es' -> wf_entries es = true -> wf_entries es' = true.
Proof.
  unfold wf_entries. intros (H1 & _ & H3)%drop_file_keeps [Hall Hd]%andb_true_iff.
  apply andb_true_iff. auto.
Qed.

Lemma drop_file_not_dir (n : string) (es es' : list entry) :
  drop_file n es = Ok es' -> forall d l c, find_entry n es <> Some (Dir d l c).
Proof.
  revert es'. induction es as [|e es IH]; intros es'; simpl; [done|].
  destruct (String.eqb (entry_name e) n).
  - destruct e; [done| |done]. done.
  - destruct (drop_file n es) as [es''|] eqn:Hdrop; [|done].
    intros _. by apply (IH es'').
Qed.

Lemma node_at_below (n b : string) (below : list string) (es : list entry) :
  node_at (n :: b :: below) es
  = match find_entry n es with
    | Some (Dir _ _ children) => node_at (b :: below) children
    | _ => None
    end.
Proof. reflexivity. Qed.

(** A change of one root entry that is not a directory, before or after,
    is not seen along any other path. *)
Lemma walk_unchanged (n : string) (es es' : list entry) :
  (forall m, m <> n -> find_entry m es' = find_entry m es) ->
  (forall d l c, find_entry n es <> Some (Dir d l c)) ->
  (forall d l c, find_entry n es' <> Some (Dir d l c)) ->
  forall segs, segs <> [n] ->
    node_at segs es' = node_at segs es /\ visibleAt segs es' = visibleAt segs es.
Proof.
  intros Hother Hold Hnew [|m below] Hsegs; [done|].
  destruct (String.eqb_spec m n) as [->|Hm].
  - destruct below as [|b below]; [done|]. rewrite !node_at_below. simpl.
    destruct (find_entry n es) as [[| d l c |]|] eqn:E;
      try (by destruct (Hold d l c));
      destruct (find_entry n es') as [[| d' l' c' |]|] eqn:E';
      try (by destruct (Hnew d' l' c')); by destruct (startsWith n ".").
  - split.
    + destruct below as [|b below]; [simpl; by apply Hother|].
      rewrite !node_at_below. by rewrite (Hother m Hm).
    + simpl. by rewrite (Hother m Hm).
Qed.

Lemma visibleAt_nil (segs : list string) : visibleAt segs [] = None.
Proof. destruct segs as [|n below]; [done|]. simpl. by destruct (startsWith n "."), below. Qed.

Lemma names_distinct_inj {A} (g : A -> string) (l : list A) (x y : A) :
  names_distinct (map g l) = true -> x ∈ l -> y ∈ l -> g x = g y -> x = y.
Proof.
  induction l as [|a l IH]; simpl; [by intros _ ?%elem_of_nil|].
  intros [Hfresh Hd]%andb_true_iff Hx Hy Hg. apply negb_true_iff in Hfresh.
  assert (forall z, z ∈ l -> g a <> g z) as Hnot.
  { intros z Hz E.
    assert (existsb (String.eqb (g a)) (map g l) = true) as Hex; [|congruence].
    apply existsb_exists. exists (g z). split.
    - apply in_map. by apply list_elem_of_In.
    - rewrite E. apply String.eqb_refl. }
  apply elem_of_cons in Hx as [->|Hx]; apply elem_of_cons in Hy as [->|Hy].
  - done.
  - by destruct (Hnot y Hy).
  - by destruct (Hnot x Hx).
  - by apply IH.
Qed.

Section SyncFacts.
Context (promptsDir : string) (matter : string -> outcome GrayMatterFile).

Lemma scanned_toRelative (r : root_state) (p : string) :
  wf_root r = true -> p ∈ findMarkdownFiles promptsDir r -> toRelative promptsDir p = p.
Proof.
  intros Hwf Hin.
  destruct (findMarkdownFiles_spec promptsDir r p Hwf Hin) as (segs & -> & _ & Hplain & _).
  by apply toRelative_relative.
Qed.

Lemma loadsTo_name (r : root_state) (p : string) (info : PromptInfo) :
  loadsTo promptsDir matter r p info -> name info = canonicalName (toRelative promptsDir p).
Proof. intros [_ H]. by apply loadResult_name in H. Qed.

Lemma loadsTo_functional (r : root_state) (p : string) (info info' : PromptInfo) :
  loadsTo promptsDir matter r p info -> loadsTo promptsDir matter r p info' -> info = info'.
Proof. intros [_ H] [_ H']. congruence. Qed.

(** Pairwise distinct canonical names among the scanned files rule out
    collisions. *)
Lemma distinct_names_collisionFree (r : root_state) :
  wf_root r = true ->
  names_distinct (map canonicalName (findMarkdownFiles promptsDir r)) = true ->
  collisionFree promptsDir matter r.
Proof.
  intros Hwf Hd p p' info info' Hp Hp' Hload Hload' Hname.
  assert (p = p') as <-; [|by eapply loadsTo_functional].
  apply (names_distinct_inj canonicalName _ _ _ Hd Hp Hp').
  apply loadsTo_name in Hload, Hload'.
  rewrite (scanned_toRelative r) in Hload, Hload' by done. congruence.
Qed.

Lemma inSync_unique (s : State) (c : gmap string PromptInfo) :
  inSync promptsDir matter s ->
  inSync promptsDir matter {| fs := fs s; cache := c |} ->
  c = cache s.
Proof.
  intros Hs Hc. apply map_eq. intros n. apply option_eq. intros info.
  rewrite (Hs n info). apply (Hc n info).
Qed.

(** A bulk load of a tree without collisions leaves the index in
    agreement with the tree, in every completion order. *)
Lemma bulk_inSync (r : root_state) (sched : list nat) :
  collisionFree promptsDir matter r ->
  inSync promptsDir matter {| fs := r; cache := loadedIndex promptsDir matter r sched |}.
Proof.
  intros Hfree n info. simpl. unfold loadedIndex. split.
  - intros [Hempty|(p & Hp & Hload & Hname)]%foldl_upsert_sound; [done|].
    exists p. by rewrite completionOrder_elem in Hp.
  - intros (p & Hp & Hload & <-). apply foldl_upsert_unique with (p := p); [|done|].
    + by apply completionOrder_elem.
    + intros p' info' Hp' Hload' Hname. apply completionOrder_elem in Hp'.
      by apply (Hfree p' p info' info).
Qed.

Lemma loads_unchanged (r r' : root_state) (segs : list string) (info : PromptInfo) :
  segs <> [] ->
  Forall (fun n => plain_name n = true) segs ->
  node_at segs (root_entries r') = node_at segs (root_entries r) ->
  loadsTo promptsDir matter r' (join_with "/" segs) info <->
  loadsTo promptsDir matter r (join_with "/" segs) info.
Proof.
  intros Hne Hplain Hnode. unfold loadsTo, loadResult, fs_readFile, path_join.
  rewrite toRelative_relative, locate_under by done. by rewrite Hnode.
Qed.

Lemma scan_after_change (n : string) (r r' : root_state) :
  wf_root r = true -> wf_root r' = true ->
  (root_listable r' = true -> root_listable r = true \/ root_entries r = []) ->
  (root_listable r = true -> root_listable r' = true) ->
  (forall segs, segs <> [n] ->
                visibleAt segs (root_entries r') = visibleAt segs (root_entries r)) ->
  forall p, p <> n ->
    p ∈ findMarkdownFiles promptsDir r' <-> p ∈ findMarkdownFiles promptsDir r.
Proof.
  intros Hwf Hwf' Hl Hl' Hvis p Hp. split; intros Hin.
  - destruct (findMarkdownFiles_spec promptsDir r' p Hwf' Hin)
      as (segs & -> & Hne & Hplain & _).
    apply findMarkdownFiles_iff in Hin as [Hlist (k & c & Hat & Hmd)]; [|done..].
    assert (segs <> [n]) as Hsegs by (by intros ->).
    rewrite (Hvis segs Hsegs) in Hat.
    apply findMarkdownFiles_iff; [done..|]. split; [|by exists k, c].
    destruct (Hl Hlist) as [?|Hnil]; [done|]. by rewrite Hnil, visibleAt_nil in Hat.
  - destruct (findMarkdownFiles_spec promptsDir r p Hwf Hin)
      as (segs & -> & Hne & Hplain & _).
    apply findMarkdownFiles_iff in Hin as [Hlist (k & c & Hat & Hmd)]; [|done..].
    assert (segs <> [n]) as Hsegs by (by intros ->).
    rewrite <- (Hvis segs Hsegs) in Hat.
    apply findMarkdownFiles_iff; [done..|]. split; [auto|by exists k, c].
Qed.

(** One step of incremental upkeep: the tree changes at the root file [f]
    only, the index at the key [k] of that file only, and the new entry at
    [k] is what the new tree gives. *)
Lemma inSync_step (s : State) (r' : root_state) (c' : gmap string PromptInfo)
    (f k : string) :
  wf_root (fs s) = true ->
  inSync promptsDir matter s ->
  canonicalName f = k ->
  (forall p, p <> f ->
             p ∈ findMarkdownFiles promptsDir r' <-> p ∈ findMarkdownFiles promptsDir (fs s)) ->
  (forall segs, segs <> [f] ->
                node_at segs (root_entries r') = node_at segs (root_entries (fs s))) ->
  (forall n, n <> k -> c' !! n = cache s !! n) ->
  (forall info, c' !! k = Some info <->
                exists p, p ∈ findMarkdownFiles promptsDir r' /\
                          loadsTo promptsDir matter r' p info /\ name info = k) ->
  (forall r info, loadsTo promptsDir matter r f info -> name info = k) ->
  inSync promptsDir matter {| fs := r'; cache := c' |}.
Proof.
  intros Hwf Hsync Hk Hscan Hnode Hother Hkey Hname n info. simpl.
  destruct (decide (n = k)) as [->|Hn]; [by apply Hkey|].
  rewrite (Hother n Hn), (Hsync n info).
  assert (forall p, p ∈ findMarkdownFiles promptsDir (fs s) -> p <> f ->
                    loadsTo promptsDir matter r' p info <->
                    loadsTo promptsDir matter (fs s) p info) as Hloads.
  { intros p Hp Hpf.
    destruct (findMarkdownFiles_spec promptsDir (fs s) p Hwf Hp)
      as (segs & -> & Hne & Hplain & _).
    apply loads_unchanged; [done..|]. apply Hnode. by intros ->. }
  split; intros (p & Hp & Hload & Hnm); exists p.
  - assert (p <> f) as Hpf by (intros ->; apply Hname in Hload; congruence).
    split; [by apply Hscan|]. split; [|done]. by apply Hloads.
  - assert (p <> f) as Hpf by (intros ->; apply Hname in Hload; congruence).
    apply Hscan in Hp; [|done]. split; [done|]. split; [|done]. by apply Hloads.
Qed.

End SyncFacts.

Section SyncProperties.
Context (promptsDir : string) (matter : string -> outcome GrayMatterFile).

Lemma target_endsWith_md (requested : string) :
  endsWith (path_join promptsDir (sanitizeFileName requested +:+ ".md")) ".md" = true.
Proof. unfold path_join. by do 3 apply endsWith_app_r. Qed.

Lemma target_toRelative (requested : string) :
  path_isAbsolute promptsDir = true ->
  toRelative promptsDir (path_join promptsDir (sanitizeFileName requested +:+ ".md"))
  = sanitizeFileName requested +:+ ".md".
Proof.
  intros Habs.
  pose proof (toRelative_absolute promptsDir [sanitizeFileName requested +:+ ".md"] Habs) as H.
  simpl in H. apply H; [done|]. repeat constructor. apply sanitized_target_plain.
Qed.

Lemma target_relative (requested : string) :
  toRelative promptsDir (sanitizeFileName requested +:+ ".md")
  = sanitizeFileName requested +:+ ".md".
Proof.
  pose proof (toRelative_relative promptsDir [sanitizeFileName requested +:+ ".md"]) as H.
  simpl in H. apply H. repeat constructor. apply sanitized_target_plain.
Qed.

Lemma target_name (requested : string) (r : root_state) (info : PromptInfo) :
  loadsTo promptsDir matter r (sanitizeFileName requested +:+ ".md") info ->
  name info = sanitizeFileName requested.
Proof.
  intros H%loadsTo_name. by rewrite target_relative, canonicalName_target in H.
Qed.


(** X13.  Incremental upkeep after a delete: when the index agrees with the
    tree and no document that stays flattens to the deleted name, a delete
    followed by the unlink event of the file leaves the index in agreement
    with the new tree, as a bulk load of the new tree would build it. *)
Theorem delete_then_unlink_event_matches_bulk_load (requested : string) (b : bool)
    (s s1 : State) (sched : list nat) :
  wf_root (fs s) = true ->
  path_isAbsolute promptsDir = true ->
  inSync promptsDir matter s ->
  deletePrompt promptsDir requested s = (Ok b, s1) ->
  (forall p, p ∈ findMarkdownFiles promptsDir (fs s1) ->
             canonicalName p <> sanitizeFileName requested) ->
  collisionFree promptsDir matter (fs s1) ->
  inSync promptsDir matter
    (snd (deliver promptsDir matter
            (EvUnlink (path_join promptsDir (sanitizeFileName requested +:+ ".md"))) s1)) /\
  snd (deliver promptsDir matter
         (EvUnlink (path_join promptsDir (sanitizeFileName requested +:+ ".md"))) s1)
  = snd (initializeCache promptsDir matter sched s1) /\
  getPrompt (snd (deliver promptsDir matter
                    (EvUnlink (path_join promptsDir (sanitizeFileName requested +:+ ".md")))
                    s1))
            (sanitizeFileName requested) = None.
Proof.
  intros Hwf Habs Hsync Hdel Hnone Hfree. rewrite deletePrompt_run in Hdel.
  destruct (fs s) as [?|l es] eqn:Hfs; [done|].
  destruct (drop_file _ es) as [es'|] eqn:Hdrop; [|done].
  injection Hdel as <- <-. simpl in Hnone, Hfree.
  pose proof (drop_file_find _ _ _ Hdrop) as (_ & Hother & Hgone).
  assert (wf_entries es = true) as Hwfes by done.
  assert (find_entry (sanitizeFileName requested +:+ ".md") es' = None) as Hmissing.
  { apply Hgone. by apply andb_true_iff in Hwfes as [_ ?]. }
  assert (wf_root (RootPresent l es') = true) as Hwf'
    by exact (drop_file_wf _ _ _ Hdrop Hwfes).
  simpl deliver. rewrite removeFromCache_run. simpl.
  rewrite target_endsWith_md, target_toRelative, canonicalName_target by done.
  assert (forall segs, segs <> [sanitizeFileName requested +:+ ".md"] ->
            node_at segs es' = node_at segs es /\ visibleAt segs es' = visibleAt segs es)
    as Hwalk.
  { apply walk_unchanged; [done| |].
    - apply (drop_file_not_dir _ _ _ Hdrop).
    - intros d l0 c E. congruence. }
  assert (inSync promptsDir matter
            {| fs := RootPresent l es';
               cache := delete (sanitizeFileName requested) (cache s) |}) as Hsync'.
  { apply (inSync_step promptsDir matter s _ _ (sanitizeFileName requested +:+ ".md")
             (sanitizeFileName requested)).
    - by rewrite Hfs.
    - done.
    - apply canonicalName_target.
    - rewrite Hfs. apply scan_after_change; try done.
      + simpl. auto.
      + intros segs Hsegs. by apply Hwalk.
    - rewrite Hfs. intros segs Hsegs. by apply Hwalk.
    - intros n Hn. by rewrite lookup_delete_ne.
    - intros info. rewrite lookup_delete_eq. split; [done|].
      intros (p & Hp & Hload & Hname). destruct (Hnone p Hp).
      apply loadsTo_name in Hload.
      rewrite (scanned_toRelative promptsDir (RootPresent l es')) in Hload by done.
      congruence.
    - intros r info. apply target_name. }
  split; [done|]. split; [|unfold getPrompt; simpl; by rewrite lookup_delete_eq].
  rewrite initializeCache_present. simpl. f_equal.
  apply (inSync_unique promptsDir matter
           {| fs := RootPresent l es';
              cache := loadedIndex promptsDir matter (RootPresent l es') sched |}).
  - by apply bulk_inSync.
  - done.
Qed.

End SyncProperties.

(** ** Listing and fetching through the handlers *)

Lemma endsWith_nonempty (s suf : string) :
  suf <> "" -> endsWith s suf = true -> s <> "".
Proof. intros Hsuf H ->. by destruct suf. Qed.

Lemma orElse_nonempty (a : option string) (b : string) : b <> "" -> orElse a b <> "".
Proof.
  intros Hb. unfold orElse. destruct a as [v|]; [|done].
  by destruct (String.eqb_spec v "").
Qed.

Lemma initializeFileWatcher_core (sv : Server) : core (initializeFileWatcher sv) = core sv.
Proof. unfold initializeFileWatcher. by destruct (isWatcherInitialized sv). Qed.

Section HandlerFacts.
Context (promptsDir : string) (matter : string -> outcome GrayMatterFile).
Context (regexReplace : string -> string -> string -> outcome string).

Lemma readPrompt_Throw (r : root_state) (requested e : string) :
  readPrompt promptsDir r requested = Throw e -> e = notFound requested.
Proof.
  unfold readPrompt. destruct (findPromptFile promptsDir r requested) as [filePath|].
  - destruct (fs_readFile promptsDir r filePath); [done|]. by intros [= <-].
  - by intros [= <-].
Qed.

Lemma listPrompts_Ok (sched : list nat) (sv sv' : Server) (l : list PromptInfo) :
  listPrompts promptsDir matter sched sv = (Ok l, sv') ->
  l = getAllPrompts (core sv') /\
  (indexInvariant (cache (core sv)) -> indexInvariant (cache (core sv'))).
Proof.
  unfold listPrompts. destruct (isEmpty (core sv)).
  - destruct (initializeCache promptsDir matter sched (core sv)) as [[[]|e] s'] eqn:Hinit;
      [|done].
    intros [= <- <-]. split; [done|]. intros Hinv.
    rewrite initializeFileWatcher_core. simpl.
    pose proof (indexInvariant_bulk promptsDir matter sched (core sv) Hinv) as H.
    by rewrite Hinit in H.
  - by intros [= <- <-].
Qed.

(** X14.  What the list handler returns: one protocol prompt for each
    record of the index the call leaves, under pairwise distinct names
    without "/", each with a description that is not empty (the preview
    stands in for a missing or empty one). *)
Theorem handleListPrompts_result (sched : list nat) (sv sv' : Server) (ps : list Prompt) :
  indexInvariant (cache (core sv)) ->
  handleListPrompts promptsDir matter sched sv = (Ok ps, sv') ->
  ps = promptInfoToMCPPrompt <$> getAllPrompts (core sv') /\
  NoDup (prompt_name <$> ps) /\
  Forall (fun p => prompt_description p <> "" /\
                   contains_char slash (prompt_name p) = false) ps.
Proof.
  intros Hinv. unfold handleListPrompts.
  destruct (listPrompts promptsDir matter sched sv) as [[l|e] sv0] eqn:Hlist; [|done].
  intros [= <- <-]. apply listPrompts_Ok in Hlist as [-> Hkeep].
  specialize (Hkeep Hinv). split; [done|]. split.
  - change (map promptInfoToMCPPrompt (getAllPrompts (core sv0)))
      with (promptInfoToMCPPrompt <$> getAllPrompts (core sv0)).
    rewrite <- list_fmap_compose.
    by apply keyed_names_NoDup, indexInvariant_keyed.
  - apply Forall_forall. intros p Hp.
    change (p ∈ promptInfoToMCPPrompt <$> getAllPrompts (core sv0)) in Hp.
    apply list_elem_of_fmap in Hp as (info & -> & Hin).
    unfold getAllPrompts in Hin. apply list_elem_of_fmap in Hin as ([k info'] & -> & Hin).
    apply elem_of_map_to_list in Hin. destruct (Hkeep k info' Hin) as (Hname & Hslash & Hprev).
    simpl. split.
    + apply orElse_nonempty. by apply (endsWith_nonempty _ "...").
    + by rewrite Hname.
Qed.

(** X15.  The facade's writes reach a listing through the watcher only: as
    long as the index is not empty, a listing returns the records of the
    index and leaves the server as it is, so a listing after a save or a
    delete is the listing before it; and after [cleanup] a listing does not
    start the watcher again. *)
Theorem listPrompts_ignores_facade_writes (sched : list nat) (sv : Server)
    (requested text : string) :
  isEmpty (core sv) = false ->
  listPrompts promptsDir matter sched
    {| core := snd (savePrompt promptsDir requested text (core sv));
       watcher := watcher sv; isWatcherInitialized := isWatcherInitialized sv |}
  = (Ok (getAllPrompts (core sv)),
     {| core := snd (savePrompt promptsDir requested text (core sv));
        watcher := watcher sv; isWatcherInitialized := isWatcherInitialized sv |}) /\
  listPrompts promptsDir matter sched
    {| core := snd (deletePrompt promptsDir requested (core sv));
       watcher := watcher sv; isWatcherInitialized := isWatcherInitialized sv |}
  = (Ok (getAllPrompts (core sv)),
     {| core := snd (deletePrompt promptsDir requested (core sv));
        watcher := watcher sv; isWatcherInitialized := isWatcherInitialized sv |}) /\
  listPrompts promptsDir matter sched sv = (Ok (getAllPrompts (core sv)), sv) /\
  listPrompts promptsDir matter sched (cleanup sv)
  = (Ok (getAllPrompts (core sv)), cleanup sv).
Proof.
  intros Hfull.
  assert (core (cleanup sv) = core sv) as Hcore
    by (unfold cleanup; by destruct (watcher sv)).
  unfold listPrompts, isEmpty, getAllPrompts in *. simpl.
  rewrite savePrompt_cache, deletePrompt_cache, Hcore, Hfull. done.
Qed.

(** X16.  Every failure of the get handler reads "Prompt <name> not found:
    <cause>", whatever failed: when the prompt cannot be resolved or read
    the cause is the "not found" message of [readPrompt], so the phrase
    comes twice; a header that gray-matter rejects and a key that is not a
    regular expression are reported as "not found" too. *)
Theorem handleGetPrompt_failures (s : State) (requested : string)
    (args : option (list (string * string))) :
  (is_ok (readPrompt promptsDir (fs s) requested) = false ->
   handleGetPrompt promptsDir matter regexReplace s requested args
   = Throw (getPromptError requested (notFound requested))) /\
  (forall text cause,
     readPrompt promptsDir (fs s) requested = Ok text -> matter text = Throw cause ->
     handleGetPrompt promptsDir matter regexReplace s requested args
     = Throw (getPromptError requested cause)) /\
  (forall m,
     handleGetPrompt promptsDir matter regexReplace s requested args = Throw m ->
     exists cause, m = getPromptError requested cause).
Proof.
  unfold handleGetPrompt. split_and!.
  - destruct (readPrompt promptsDir (fs s) requested) as [text|e] eqn:Hread; [done|].
    intros _. by rewrite (readPrompt_Throw _ _ _ Hread).
  - intros text cause -> ->. done.
  - intros m.
    destruct (readPrompt promptsDir (fs s) requested) as [text|e]; [|intros [= <-]; by eexists].
    destruct (matter text) as [parsed|e]; [|intros [= <-]; by eexists].
    destruct args as [entries|]; [|done].
    destruct (substituteArgs regexReplace entries (content parsed)) as [t|e];
      [done|intros [= <-]; by eexists].
Qed.

(** X17.  A get that returns carries one user message, and its description
    is the one of the index entry stored under the requested name, not one
    read from the file: without such an entry there is none.  As the index
    stores nested prompts under flattened names, a request by a name with
    "/" never has a description. *)
Theorem handleGetPrompt_description (s : State) (requested : string)
    (args : option (list (string * string))) (res : GetPromptResult) :
  indexInvariant (cache s) ->
  handleGetPrompt promptsDir matter regexReplace s requested args = Ok res ->
  (exists promptText, messages res = [ {| role := "user"; text := promptText |} ]) /\
  description res = (getPrompt s requested ≫= fun info => metadata info !! "description") /\
  (contains_char slash requested = true -> description res = None) /\
  (getPrompt s requested = None -> description res = None).
Proof.
  intros Hinv. unfold handleGetPrompt, getPromptInfo.
  destruct (readPrompt promptsDir (fs s) requested) as [text|e]; [|done].
  destruct (matter text) as [parsed|e]; [|done].
  destruct (match args with
            | Some entries => substituteArgs regexReplace entries (content parsed)
            | None => Ok (content parsed)
            end) as [promptText|e]; [|done].
  intros [= <-]. simpl. split; [by eexists|].
  assert (contains_char slash requested = true -> getPrompt s requested = None) as Hmiss.
  { intros Hslash. unfold getPrompt. destruct (cache s !! requested) as [info|] eqn:E; [|done].
    destruct (Hinv _ _ E) as (_ & Hno & _). congruence. }
  split; [by destruct (getPrompt s requested)|]. split.
  - intros Hslash. by rewrite (Hmiss Hslash).
  - by intros ->.
Qed.

End HandlerFacts.

(** ** githubSync.ts: repository URLs *)

Lemma after_prefix_app (p s r : string) : after_prefix p s = Some r -> s = p +:+ r.
Proof.
  revert s. induction p as [|a p IH]; intros s; simpl; [by intros [= ->]|].
  destruct s as [|b s]; [done|].
  destruct (Ascii.eqb_spec b a) as [->|]; [|done].
  intros H%IH. by rewrite sapp_cons, H.
Qed.

Lemma count_char_app (c : ascii) (a b : string) :
  count_char c (a +:+ b) = count_char c a + count_char c b.
Proof.
  induction a as [|x a IH]; [done|]. rewrite sapp_cons. simpl. rewrite IH. lia.
Qed.

Lemma count_char_zero (c : ascii) (s : string) :
  contains_char c s = false <-> count_char c s = 0.
Proof.
  induction s as [|d s IH]; [done|]. simpl.
  destruct (Ascii.eqb d c); simpl; [split; [done|lia]|done].
Qed.

Lemma split_slash_no_slash (s : string) :
  Forall (fun x => contains_char slash x = false) (split_slash s).
Proof.
  induction s as [|c s IH]; [by repeat constructor|]. simpl.
  destruct (Ascii.eqb c slash) eqn:Hc; [by constructor|].
  pose proof (split_slash_nonempty s).
  destruct (split_slash s) as [|x xs]; [done|].
  inversion IH as [|? ? Hx Hxs]; subst. constructor; [|done]. simpl. by rewrite Hc.
Qed.

Lemma join_split_slash (s : string) : join_with "/" (split_slash s) = s.
Proof.
  induction s as [|c s IH]; [done|]. simpl.
  pose proof (split_slash_nonempty s).
  destruct (Ascii.eqb_spec c slash) as [->|Hc].
  - destruct (split_slash s) as [|x xs]; [done|]. rewrite join_with_cons, IH. done.
  - destruct (split_slash s) as [|x xs]; [done|].
    destruct xs as [|y xs]; simpl in *; [by rewrite IH|].
    by rewrite <- IH.
Qed.

Lemma split_slash_two (s : string) :
  contains_char slash s = false -> length (split_slash s) = 1.
Proof. intros H. by rewrite split_slash_plain. Qed.

Lemma ownerRepo_Some (rest o r : string) :
  ownerRepo rest = Some (o, r) ->
  o <> "" /\ r <> "" /\ contains_char slash o = false /\ contains_char slash r = false /\
  contains_char slash rest = true.
Proof.
  unfold ownerRepo. pose proof (split_slash_no_slash rest) as Hno.
  destruct (contains_char slash rest) eqn:Hslash.
  - destruct (split_slash rest) as [|a [|b more]]; [done..|].
    destruct (String.eqb_spec a ""); [done|]. destruct (String.eqb_spec b ""); [done|].
    intros [= <- <-]. inversion Hno as [|? ? Ha Hrest]; subst.
    inversion Hrest; subst. done.
  - by rewrite split_slash_plain.
Qed.

Lemma matchHere_Some (s o r : string) :
  matchHere s = Some (o, r) ->
  o <> "" /\ r <> "" /\ contains_char slash o = false /\ contains_char slash r = false /\
  contains_char slash s = true /\
  (contains_char colon s = true \/ 2 <= count_char slash s).
Proof.
  unfold matchHere.
  destruct (after_prefix "github.com" s) as [[|c rest]|] eqn:Hpre; [done| |done].
  apply after_prefix_app in Hpre.
  assert (count_char slash s = (if Ascii.eqb c slash then 1 else 0) + count_char slash rest)
    as Hcount by (rewrite Hpre, count_char_app; reflexivity).
  assert (forall x, contains_char x s
                    = contains_char x "github.com" || (Ascii.eqb c x || contains_char x rest))
    as Hcont by (intros x; rewrite Hpre, contains_char_app; reflexivity).
  clear Hpre. rewrite Hcount, !Hcont.
  destruct (Ascii.eqb_spec c slash) as [->|Hc]; simpl.
  - intros (? & ? & ? & ? & Hrest)%ownerRepo_Some. split_and!; try done.
    right. destruct (count_char slash rest) eqn:E; [|lia].
    apply count_char_zero in E. congruence.
  - destruct (Ascii.eqb_spec c colon) as [->|]; [|done].
    intros (? & ? & ? & ? & Hrest)%ownerRepo_Some. split_and!; try done. by left.
Qed.

Lemma searchGithub_Some (s o r : string) :
  searchGithub s = Some (o, r) ->
  o <> "" /\ r <> "" /\ contains_char slash o = false /\ contains_char slash r = false /\
  contains_char slash s = true /\
  (contains_char colon s = true \/ 2 <= count_char slash s).
Proof.
  induction s as [|c s IH]; [done|].
  change (searchGithub (String c s))
    with (match matchHere (String c s) with
          | Some groups => Some groups
          | None => searchGithub s
          end).
  destruct (matchHere (String c s)) as [[a b]|] eqn:E.
  - intros [= <- <-]. by apply matchHere_Some in E.
  - intros (? & ? & ? & ? & Hslash & Hmore)%IH. split_and!; try done.
    + simpl. rewrite Hslash. apply orb_true_r.
    + destruct Hmore as [Hcolon|Hcount]; [left|right].
      * simpl. rewrite Hcolon. apply orb_true_r.
      * simpl. lia.
Qed.

Lemma searchGithub_hit (s : string) (g : string * string) :
  matchHere s = Some g -> searchGithub s = Some g.
Proof.
  intros H. destruct s as [|c s]; [done|].
  change (searchGithub (String c s))
    with (match matchHere (String c s) with
          | Some groups => Some groups
          | None => searchGithub s
          end).
  by rewrite H.
Qed.

Lemma matchShort_Some (s o r : string) :
  matchShort s = Some (o, r) ->
  o <> "" /\ r <> "" /\ contains_char slash o = false /\ contains_char slash r = false /\
  s = o +:+ "/" +:+ r.
Proof.
  unfold matchShort. pose proof (split_slash_no_slash s) as Hno.
  pose proof (join_split_slash s) as Hjoin.
  destruct (split_slash s) as [|a [|b [|c more]]]; [done..| |done].
  destruct (String.eqb_spec a ""); [done|]. destruct (String.eqb_spec b ""); [done|].
  intros [= <- <-]. inversion Hno as [|? ? Ha Hrest]; subst. inversion Hrest; subst.
  done.
Qed.

Lemma nameChars_no (s : string) :
  nameChars s = true ->
  contains_char slash s = false /\ contains_char colon s = false.
Proof.
  induction s as [|c s IH]; [done|]. simpl.
  intros [[[Hs Hc]%andb_true_iff _]%andb_true_iff Hrest]%andb_true_iff.
  apply negb_true_iff in Hs, Hc. destruct (IH Hrest) as [-> ->]. by rewrite Hs, Hc.
Qed.

Lemma trimEnd_nameChars (r : string) :
  nameChars r = true -> trimEnd r = r.
Proof.
  induction r as [|c r IH]; [done|]. simpl.
  intros [[_ Hsp%negb_true_iff]%andb_true_iff Hrest]%andb_true_iff.
  rewrite (IH Hrest). destruct r; [by rewrite Hsp|done].
Qed.

Lemma trimEnd_app (a b : string) :
  trimEnd b <> "" -> trimEnd (a +:+ b) = a +:+ trimEnd b.
Proof.
  intros Hb. induction a as [|c a IH]; [done|]. rewrite !sapp_cons. simpl. rewrite IH.
  destruct (a +:+ trimEnd b) eqn:E; [|done].
  destruct a; [done|]. by rewrite sapp_cons in E.
Qed.

Lemma stripTrailingSlash_nameChars (r : string) :
  nameChars r = true -> stripTrailingSlash r = r.
Proof.
  induction r as [|c r IH]; [done|]. simpl.
  intros [[[Hs%negb_true_iff _]%andb_true_iff _]%andb_true_iff Hrest]%andb_true_iff.
  by rewrite Hs, (IH Hrest).
Qed.

Lemma stripTrailingSlash_app (a b : string) :
  b <> "" -> stripTrailingSlash (a +:+ b) = a +:+ stripTrailingSlash b.
Proof.
  intros Hb. induction a as [|c a IH]; [done|]. rewrite !sapp_cons. simpl. rewrite IH.
  destruct (String.eqb_spec (a +:+ b) "") as [E|]; [|by rewrite andb_false_r].
  destruct a; [done|]. by rewrite sapp_cons in E.
Qed.

(** A text that starts with a character that is not white space and ends
    with a name is already normalized. *)
Lemma normalized (c : ascii) (a r : string) :
  is_js_space c = false -> repoNameOk r = true ->
  stripTrailingSlash (trim (String c a +:+ r)) = String c a +:+ r.
Proof.
  intros Hc [Hne%negb_true_iff Hr]%andb_true_iff.
  apply String.eqb_neq in Hne.
  unfold trim. rewrite sapp_cons. simpl. rewrite Hc. rewrite <- sapp_cons.
  rewrite trimEnd_app, trimEnd_nameChars by (by rewrite ?trimEnd_nameChars).
  by rewrite stripTrailingSlash_app, stripTrailingSlash_nameChars.
Qed.

Lemma split_owner_repo (o r : string) :
  repoNameOk o = true -> repoNameOk r = true ->
  ownerRepo (o +:+ "/" +:+ r) = Some (o, r) /\ matchShort (o +:+ "/" +:+ r) = Some (o, r).
Proof.
  intros [Ho%negb_true_iff Hoc]%andb_true_iff [Hr%negb_true_iff Hrc]%andb_true_iff.
  apply nameChars_no in Hoc as [Hos _], Hrc as [Hrs _].
  unfold ownerRepo, matchShort.
  rewrite split_slash_app, !split_slash_plain by done. simpl. by rewrite Ho, Hr.
Qed.

(** X18.  A repository URL that [parseRepoUrl] accepts names an owner and
    a repository that are not empty and hold no "/", and the full name is
    the two joined by "/"; a text without "/" (once the white space around
    it and one trailing "/" are taken off) is always rejected, with the
    message that quotes the normalized text. *)
Theorem parseRepoUrl_sound (repoUrl : string) :
  (forall id, parseRepoUrl repoUrl = Ok id ->
     owner id <> "" /\ repo id <> "" /\
     contains_char slash (owner id) = false /\ contains_char slash (repo id) = false /\
     fullName id = owner id +:+ "/" +:+ repo id) /\
  (contains_char slash (stripTrailingSlash (trim repoUrl)) = false ->
   parseRepoUrl repoUrl = Throw (invalidRepoUrl (stripTrailingSlash (trim repoUrl)))) /\
  (forall m, parseRepoUrl repoUrl = Throw m ->
             m = invalidRepoUrl (stripTrailingSlash (trim repoUrl))).
Proof.
  unfold parseRepoUrl. set (t := stripTrailingSlash (trim repoUrl)).
  destruct (searchGithub t) as [[o r]|] eqn:Hsearch.
  - apply searchGithub_Some in Hsearch as (? & ? & ? & ? & Hslash & _).
    split_and!; [|congruence|done]. by intros id [= <-].
  - destruct (matchShort t) as [[o r]|] eqn:Hshort.
    + apply matchShort_Some in Hshort as (? & ? & ? & ? & Ht).
      split_and!; [|rewrite Ht, contains_char_app; simpl; by rewrite orb_true_r|done].
      by intros id [= <-].
    + split_and!; [done|done|]. by intros m [= <-].
Qed.

Lemma sapp_nil_r (s : string) : s +:+ "" = s.
Proof. induction s as [|c s IH]; [done|]. by rewrite sapp_cons, IH. Qed.

Lemma trimStart_spaces (lead x : string) :
  all_chars is_js_space lead = true -> trimStart (lead +:+ x) = trimStart x.
Proof.
  induction lead as [|c lead IH]; [done|]. simpl.
  intros [Hc Hrest]%andb_true_iff. rewrite Hc. auto.
Qed.

Lemma trimEnd_spaces (trail : string) :
  all_chars is_js_space trail = true -> trimEnd trail = "".
Proof.
  induction trail as [|c trail IH]; [done|]. simpl.
  intros [Hc Hrest]%andb_true_iff. by rewrite (IH Hrest), Hc.
Qed.

Lemma trimEnd_app_spaces (a trail : string) :
  all_chars is_js_space trail = true -> trimEnd (a +:+ trail) = trimEnd a.
Proof.
  intros Htrail. induction a as [|c a IH]; [by apply trimEnd_spaces|].
  rewrite sapp_cons. simpl. by rewrite IH.
Qed.

(** White space around a text that starts with a character that is not
    white space and ends with a name, and one "/" after the name, are taken
    off by the normalization. *)
Lemma normalized_padded (c : ascii) (a r lead tail trail : string) :
  is_js_space c = false -> repoNameOk r = true ->
  all_chars is_js_space lead = true -> all_chars is_js_space trail = true ->
  tail = "" \/ tail = "/" ->
  stripTrailingSlash (trim (lead +:+ (String c a +:+ r) +:+ tail +:+ trail))
  = String c a +:+ r.
Proof.
  intros Hc Hr Hlead Htrail Htail.
  pose proof Hr as [Hne%negb_true_iff Hchars]%andb_true_iff.
  apply String.eqb_neq in Hne.
  unfold trim. rewrite (trimStart_spaces _ _ Hlead).
  rewrite <- (sapp_assoc (String c a +:+ r) tail trail).
  assert (trimStart (((String c a +:+ r) +:+ tail) +:+ trail)
          = ((String c a +:+ r) +:+ tail) +:+ trail) as ->.
  { rewrite !sapp_cons. simpl. by rewrite Hc. }
  rewrite (trimEnd_app_spaces _ _ Htrail).
  assert (trimEnd (String c a +:+ r) = String c a +:+ r) as Hkeep.
  { rewrite trimEnd_app, trimEnd_nameChars by (by rewrite ?trimEnd_nameChars). done. }
  assert (stripTrailingSlash (String c a +:+ r) = String c a +:+ r) as Hstrip.
  { by rewrite stripTrailingSlash_app, stripTrailingSlash_nameChars. }
  destruct Htail as [-> | ->].
  - by rewrite sapp_nil_r, Hkeep, Hstrip.
  - rewrite trimEnd_app by done. simpl trimEnd.
    rewrite stripTrailingSlash_app by done. simpl. by rewrite sapp_nil_r.
Qed.

Lemma parseRepoUrl_normal (t : string) (o r : string) :
  searchGithub t = Some (o, r) ->
  forall repoUrl, stripTrailingSlash (trim repoUrl) = t ->
    parseRepoUrl repoUrl = Ok {| owner := o; repo := r; fullName := o +:+ "/" +:+ r |}.
Proof. intros Hsearch repoUrl Ht. unfold parseRepoUrl. by rewrite Ht, Hsearch. Qed.

Lemma parseRepoUrl_normalized (repoUrl repoUrl' : string) :
  stripTrailingSlash (trim repoUrl) = stripTrailingSlash (trim repoUrl') ->
  parseRepoUrl repoUrl = parseRepoUrl repoUrl'.
Proof. intros H. unfold parseRepoUrl. by rewrite H. Qed.

(** X19.  The forms of a repository URL name the same repository: for an
    owner and a repository name without "/", ":" and white space,
    "owner/repo", "github.com/owner/repo", "https://github.com/owner/repo"
    and "git@github.com:owner/repo" all parse to the owner, the repository
    and the full name "owner/repo"; and so does each of the four with any
    white space before it, one "/" or none after it, and any white space
    at the end. *)
Theorem parseRepoUrl_forms_agree (o r lead tail trail : string) :
  repoNameOk o = true -> repoNameOk r = true ->
  all_chars is_js_space lead = true -> all_chars is_js_space trail = true ->
  tail = "" \/ tail = "/" ->
  (parseRepoUrl (o +:+ "/" +:+ r)
   = Ok {| owner := o; repo := r; fullName := o +:+ "/" +:+ r |} /\
   parseRepoUrl ("github.com/" +:+ o +:+ "/" +:+ r)
   = Ok {| owner := o; repo := r; fullName := o +:+ "/" +:+ r |} /\
   parseRepoUrl ("https://github.com/" +:+ o +:+ "/" +:+ r)
   = Ok {| owner := o; repo := r; fullName := o +:+ "/" +:+ r |} /\
   parseRepoUrl ("git@github.com:" +:+ o +:+ "/" +:+ r)
   = Ok {| owner := o; repo := r; fullName := o +:+ "/" +:+ r |}) /\
  (parseRepoUrl (lead +:+ (o +:+ "/" +:+ r) +:+ tail +:+ trail)
   = Ok {| owner := o; repo := r; fullName := o +:+ "/" +:+ r |} /\
   parseRepoUrl (lead +:+ ("github.com/" +:+ o +:+ "/" +:+ r) +:+ tail +:+ trail)
   = Ok {| owner := o; repo := r; fullName := o +:+ "/" +:+ r |} /\
   parseRepoUrl (lead +:+ ("https://github.com/" +:+ o +:+ "/" +:+ r) +:+ tail +:+ trail)
   = Ok {| owner := o; repo := r; fullName := o +:+ "/" +:+ r |} /\
   parseRepoUrl (lead +:+ ("git@github.com:" +:+ o +:+ "/" +:+ r) +:+ tail +:+ trail)
   = Ok {| owner := o; repo := r; fullName := o +:+ "/" +:+ r |}).
Proof.
  intros Ho Hr Hlead Htrail Htail.
  destruct (split_owner_repo o r Ho Hr) as [Hgroups Hshort].
  assert (forall pre, pre +:+ o +:+ "/" +:+ r = (pre +:+ o +:+ "/") +:+ r) as Hassoc
    by (intros pre; by rewrite !sapp_assoc).
  assert (searchGithub ("github.com/" +:+ o +:+ "/" +:+ r) = Some (o, r)) as Hplain
    by (by apply searchGithub_hit).
  assert (searchGithub ("https://github.com/" +:+ o +:+ "/" +:+ r) = Some (o, r)) as Hhttps
    by exact Hplain.
  assert (searchGithub ("git@github.com:" +:+ o +:+ "/" +:+ r) = Some (o, r)) as Hssh
    by (by apply (searchGithub_hit ("github.com:" +:+ o +:+ "/" +:+ r))).
  assert (exists c o', o = String c o' /\ is_js_space c = false) as (c & o' & Hoeq & Hc).
  { pose proof Ho as [Hne%negb_true_iff Hoc]%andb_true_iff.
    destruct o as [|c o']; [done|]. exists c, o'. split; [done|].
    simpl in Hoc. apply andb_true_iff in Hoc as [[_ Hsp]%andb_true_iff _].
    by apply negb_true_iff. }
  assert (o +:+ "/" +:+ r = String c (o' +:+ "/") +:+ r) as Hform
    by (rewrite Hoeq; by rewrite !sapp_cons, sapp_assoc).
  assert (parseRepoUrl (o +:+ "/" +:+ r)
          = Ok {| owner := o; repo := r; fullName := o +:+ "/" +:+ r |}) as Hshortform.
  { unfold parseRepoUrl. rewrite Hform, normalized, <- Hform by done.
    destruct (searchGithub (o +:+ "/" +:+ r)) as [[a b]|] eqn:Hsearch.
    - apply searchGithub_Some in Hsearch as (_ & _ & _ & _ & _ & Hmore).
      pose proof Ho as [_ Hoc]%andb_true_iff. pose proof Hr as [_ Hrc]%andb_true_iff.
      apply nameChars_no in Hoc as [Hos Hocol], Hrc as [Hrs Hrcol].
      rewrite contains_char_app, count_char_app in Hmore.
      rewrite contains_char_app, count_char_app in Hmore.
      apply count_char_zero in Hos, Hrs. rewrite Hocol, Hrcol, Hos, Hrs in Hmore.
      simpl in Hmore. destruct Hmore as [?|?]; [done|lia].
    - by rewrite Hshort. }
  assert (stripTrailingSlash (trim ("github.com/" +:+ o +:+ "/" +:+ r))
          = "github.com/" +:+ o +:+ "/" +:+ r) as Nplain.
  { rewrite (Hassoc "github.com/").
    by apply (normalized "g" ("ithub.com/" +:+ o +:+ "/")). }
  assert (stripTrailingSlash (trim ("https://github.com/" +:+ o +:+ "/" +:+ r))
          = "https://github.com/" +:+ o +:+ "/" +:+ r) as Nhttps.
  { rewrite (Hassoc "https://github.com/").
    by apply (normalized "h" ("ttps://github.com/" +:+ o +:+ "/")). }
  assert (stripTrailingSlash (trim ("git@github.com:" +:+ o +:+ "/" +:+ r))
          = "git@github.com:" +:+ o +:+ "/" +:+ r) as Nssh.
  { rewrite (Hassoc "git@github.com:").
    by apply (normalized "g" ("it@github.com:" +:+ o +:+ "/")). }
  assert (parseRepoUrl ("github.com/" +:+ o +:+ "/" +:+ r)
          = Ok {| owner := o; repo := r; fullName := o +:+ "/" +:+ r |}) as Pplain
    by exact (parseRepoUrl_normal _ _ _ Hplain _ Nplain).
  assert (parseRepoUrl ("https://github.com/" +:+ o +:+ "/" +:+ r)
          = Ok {| owner := o; repo := r; fullName := o +:+ "/" +:+ r |}) as Phttps
    by exact (parseRepoUrl_normal _ _ _ Hhttps _ Nhttps).
  assert (parseRepoUrl ("git@github.com:" +:+ o +:+ "/" +:+ r)
          = Ok {| owner := o; repo := r; fullName := o +:+ "/" +:+ r |}) as Pssh
    by exact (parseRepoUrl_normal _ _ _ Hssh _ Nssh).
  split; [done|]. split_and!.
  - rewrite <- Hshortform. apply parseRepoUrl_normalized.
    rewrite Hform, normalized by done. by apply normalized_padded.
  - rewrite <- Pplain. apply parseRepoUrl_normalized.
    rewrite Nplain, (Hassoc "github.com/").
    by apply (normalized_padded "g" ("ithub.com/" +:+ o +:+ "/")).
  - rewrite <- Phttps. apply parseRepoUrl_normalized.
    rewrite Nhttps, (Hassoc "https://github.com/").
    by apply (normalized_padded "h" ("ttps://github.com/" +:+ o +:+ "/")).
  - rewrite <- Pssh. apply parseRepoUrl_normalized.
    rewrite Nssh, (Hassoc "git@github.com:").
    by apply (normalized_padded "g" ("it@github.com:" +:+ o +:+ "/")).
Qed.

(** ** The reads of the cache *)

(** X20.  The reads of the cache agree: [getAllPrompts] has [size()]
    records, it is empty exactly when [isEmpty()] holds, its records are
    those [getPrompt] finds under some name, and, the records being stored
    under their own names, those [getPrompt] finds under their names. *)
Theorem cache_reads_agree (s : State) :
  length (getAllPrompts s) = cacheSize s /\
  (isEmpty s = true <-> getAllPrompts s = []) /\
  (forall info, info ∈ getAllPrompts s <-> exists n, getPrompt s n = Some info) /\
  (keyed (cache s) ->
   forall info, info ∈ getAllPrompts s <-> getPrompt s (name info) = Some info).
Proof.
  assert (length (getAllPrompts s) = cacheSize s) as Hlen.
  { unfold getAllPrompts, cacheSize. by rewrite length_fmap, length_map_to_list. }
  assert (forall info, info ∈ getAllPrompts s <-> exists n, getPrompt s n = Some info) as Hin.
  { intros info. unfold getAllPrompts, getPrompt. rewrite list_elem_of_fmap. split.
    - intros ([n info'] & -> & H%elem_of_map_to_list). by exists n.
    - intros (n & H). exists (n, info). split; [done|]. by apply elem_of_map_to_list. }
  split_and!; try done.
  - unfold isEmpty. rewrite bool_decide_eq_true. fold (cacheSize s). rewrite <- Hlen.
    by destruct (getAllPrompts s).
  - intros Hkeyed info. rewrite Hin. split; [|by eexists].
    intros (n & Hn). unfold getPrompt in *. by rewrite (Hkeyed n info Hn).
Qed.

(** * The further properties at the example trees *)

Lemma tidyTree_collisionFree : collisionFree demoDir demoMatter tidyTree.
Proof. apply distinct_names_collisionFree; vm_compute; reflexivity. Qed.

Lemma tidyState_inSync : inSync demoDir demoMatter tidyState.
Proof. apply bulk_inSync, tidyTree_collisionFree. Qed.

Lemma tidyState_invariant : indexInvariant (cache tidyState).
Proof. apply indexInvariant_foldl, map_Forall_empty. Qed.

(** A save under "My Prompt!" writes [my_prompt_.md] in the root. *)
Lemma savePrompt_changes_one_root_file_witness :
  fst (savePrompt demoDir "My Prompt!" "hello" demoState) = Ok "my_prompt_.md" /\
  node_at ["my_prompt_.md"]
    (root_entries (fs (snd (savePrompt demoDir "My Prompt!" "hello" demoState))))
  = Some (File "my_prompt_.md" (Some "hello")).
Proof.
  split; [vm_compute; reflexivity|].
  refine (proj1 (proj2 (proj2 (proj2 (proj2 (proj2
            (savePrompt_changes_one_root_file demoDir "My Prompt!" "hello" "my_prompt_.md"
               demoState _ _))))))).
  vm_compute. reflexivity.
Defined.



Lemma deletePrompt_removes_root_file_witness :
  fst (deletePrompt demoDir "Code-Review" demoState) = Ok true /\
  promptExists demoDir "Code-Review" (snd (deletePrompt demoDir "Code-Review" demoState))
  = (Ok false, snd (deletePrompt demoDir "Code-Review" demoState)).
Proof.
  split; [vm_compute; reflexivity|].
  refine (proj1 (proj2 (proj2 (proj2
            (deletePrompt_removes_root_file demoDir "Code-Review" true demoState _ _ _)))));
    vm_compute; reflexivity.
Defined.

(** [team/review] is resolved by the walk, yet [promptExists] denies it and
    [deletePrompt] cannot delete it. *)
Lemma flat_operations_miss_walked_prompts_witness :
  is_Some (findPromptFile demoDir demoTree "team/review") /\
  promptExists demoDir "team/review" demoState = (Ok false, demoState) /\
  deletePrompt demoDir "team/review" demoState = (Throw (notFound "team/review"), demoState).
Proof.
  apply (flat_operations_miss_walked_prompts demoDir "team/review" "team/review.md" demoState).
  - vm_compute. reflexivity.
  - apply list_elem_of_In. vm_compute. auto.
  - vm_compute. reflexivity.
  - vm_compute. reflexivity.
Defined.

Lemma save_then_delete_restores_witness :
  fst (savePrompt demoDir "New Prompt" "text" demoState) = Ok "new_prompt.md" /\
  deletePrompt demoDir "New Prompt" (snd (savePrompt demoDir "New Prompt" "text" demoState))
  = (Ok true, demoState).
Proof.
  split; [vm_compute; reflexivity|].
  apply (save_then_delete_restores demoDir "New Prompt" "text" "new_prompt.md" demoState);
    vm_compute; reflexivity.
Defined.

Lemma watcher_paths_agree_witness :
  deliver demoDir demoMatter (EvAdd "/srv/prompts/team/review.md") demoState
  = updateCacheForFile demoDir demoMatter "team/review.md" demoState /\
  deliver demoDir demoMatter (EvUnlink "/srv/prompts/team/review.md") demoState
  = removeFromCache demoDir "team/review.md" demoState.
Proof.
  destruct (watcher_paths_agree demoDir demoMatter ["team"; "review.md"] demoState)
    as (Hadd & _ & Hunlink).
  - vm_compute. reflexivity.
  - done.
  - repeat constructor.
  - vm_compute. reflexivity.
  - split; [exact Hadd|exact Hunlink].
Defined.

Lemma history_keeps_index_invariant_witness :
  NoDup (name <$> getAllPrompts
                    (history demoDir demoMatter
                       [ OpBulkLoad []; OpSave "New Prompt" "text";
                         OpDeliver (EvAdd "/srv/prompts/new_prompt.md");
                         OpDelete "Code-Review";
                         OpDeliver (EvUnlink "/srv/prompts/code-review.md") ]
                       demoState)).
Proof.
  refine (proj2 (history_keeps_index_invariant demoDir demoMatter _ demoState _)).
  apply map_Forall_empty.
Defined.


Lemma delete_then_unlink_event_matches_bulk_load_witness :
  getPrompt
    (snd (deliver demoDir demoMatter (EvUnlink (path_join demoDir "code-review.md"))
            (snd (deletePrompt demoDir "Code-Review" tidyState))))
    "code-review" = None /\
  snd (deliver demoDir demoMatter (EvUnlink (path_join demoDir "code-review.md"))
         (snd (deletePrompt demoDir "Code-Review" tidyState)))
  = snd (initializeCache demoDir demoMatter []
           (snd (deletePrompt demoDir "Code-Review" tidyState))).
Proof.
  assert (collisionFree demoDir demoMatter
            (fs (snd (deletePrompt demoDir "Code-Review" tidyState)))) as Hfree
    by (apply distinct_names_collisionFree; vm_compute; reflexivity).
  destruct (delete_then_unlink_event_matches_bulk_load demoDir demoMatter
              "Code-Review" true tidyState
              (snd (deletePrompt demoDir "Code-Review" tidyState)) [])
    as (_ & Hbulk & Hget).
  - vm_compute. reflexivity.
  - vm_compute. reflexivity.
  - exact tidyState_inSync.
  - vm_compute. reflexivity.
  - intros p Hp. apply list_elem_of_In in Hp. vm_compute in Hp.
    destruct Hp as [<-|[]]. vm_compute. discriminate.
  - exact Hfree.
  - split; [exact Hget|exact Hbulk].
Defined.

(** The first listing of the example tree loads it: three prompts, under
    distinct names. *)
Lemma handleListPrompts_result_witness :
  exists ps sv',
    handleListPrompts demoDir demoMatter []
      {| core := demoState; watcher := false; isWatcherInitialized := false |}
    = (Ok ps, sv') /\
    length ps = 3 /\ NoDup (prompt_name <$> ps) /\ isWatcherInitialized sv' = true.
Proof.
  eexists _, _. split; [vm_compute; reflexivity|].
  split; [vm_compute; reflexivity|]. split; [|reflexivity].
  refine (proj1 (proj2 (handleListPrompts_result demoDir demoMatter []
                          {| core := demoState; watcher := false;
                             isWatcherInitialized := false |} _ _ _ _))).
  - apply map_Forall_empty.
  - vm_compute. reflexivity.
Defined.

Lemma listPrompts_ignores_facade_writes_witness :
  fst (listPrompts demoDir demoMatter []
         {| core := snd (savePrompt demoDir "My Prompt!" "hello" tidyState);
            watcher := true; isWatcherInitialized := true |})
  = Ok (getAllPrompts tidyState).
Proof.
  destruct (listPrompts_ignores_facade_writes demoDir demoMatter [] tidyServer
              "My Prompt!" "hello") as (Hsave & _).
  - vm_compute. reflexivity.
  - exact (f_equal fst Hsave).
Defined.

(** [team/review] is fetched, without the description the index holds
    under [team_review]. *)
Lemma handleGetPrompt_description_witness :
  exists res,
    handleGetPrompt demoDir demoMatter noPlaceholders tidyState "team/review" None = Ok res /\
    description res = None /\
    is_Some (getPrompt tidyState "team_review").
Proof.
  eexists. split; [vm_compute; reflexivity|]. split; [|vm_compute; by eexists].
  refine (proj1 (proj2 (proj2 (handleGetPrompt_description demoDir demoMatter noPlaceholders
                                 tidyState "team/review" None _ tidyState_invariant _))) _).
  - vm_compute. reflexivity.
  - vm_compute. reflexivity.
Defined.

Lemma parseRepoUrl_forms_agree_witness :
  parseRepoUrl "user/repo"
  = Ok {| owner := "user"; repo := "repo"; fullName := "user/repo" |} /\
  parseRepoUrl "https://github.com/user/repo" = parseRepoUrl "user/repo" /\
  parseRepoUrl "git@github.com:user/repo" = parseRepoUrl "github.com/user/repo" /\
  parseRepoUrl "  https://github.com/user/repo/ " = parseRepoUrl "user/repo" /\
  parseRepoUrl "  user/repo/ " = parseRepoUrl "user/repo".
Proof.
  destruct (parseRepoUrl_forms_agree "user" "repo" "  " "/" " ")
    as ((H1 & H2 & H3 & H4) & (P1 & _ & P3 & _)).
  - vm_compute. reflexivity.
  - vm_compute. reflexivity.
  - vm_compute. reflexivity.
  - vm_compute. reflexivity.
  - by right.
  - split; [exact H1|]. split; [exact (eq_trans H3 (eq_sym H1))|].
    split; [exact (eq_trans H4 (eq_sym H2))|].
    split; [exact (eq_trans P3 (eq_sym H1))|exact (eq_trans P1 (eq_sym H1))].
Defined.
